(** * yolk: bulk rewriting of Go import paths

    A shallow embedding of [yolk.go] and the properties of its rewrite
    engine.  The program walks a directory tree, selects Go source files,
    reparses each of them, replaces import paths according to the global
    rule map, prints the syntax tree back and overwrites the file behind a
    backup copy.

    What the program takes from outside is kept outside:
    - the Go syntax tools (go/parser, go/printer, go/format, strconv and
      x/tools astutil) are an interface, [GoToolchain];
    - the operating system is a finite map from paths to files together
      with a [Host] that decides which system calls fail, which names
      the temp-file generator proposes, and what a directory walk yields.

    Module [Ref] at the end of the definitions gives one executable
    toolchain for a line-oriented fragment of Go; it is used to run the
    program on concrete files. *)

From Stdlib Require Import ZArith Ascii.
From stdpp Require Import base gmap strings list fin_maps.

Local Open Scope Z_scope.

(** ** The pieces of Go's [strings] package the program calls *)

Module strings.

(** [strings.HasPrefix(s, prefix)] *)
Fixpoint HasPrefix (s prefix : string) {struct prefix} : bool :=
  match prefix with
  | EmptyString => true
  | String c prefix' =>
      match s with
      | EmptyString => false
      | String d s' => if Ascii.eqb c d then HasPrefix s' prefix' else false
      end
  end.

(** [s[n:]] for [n <= len(s)] *)
Fixpoint slice_from (n : nat) (s : string) : string :=
  match n, s with
  | O, _ => s
  | S n', String _ s' => slice_from n' s'
  | S _, EmptyString => EmptyString
  end.

(** [s[:n]] for [n <= len(s)] *)
Fixpoint slice_to (n : nat) (s : string) : string :=
  match n, s with
  | O, _ => EmptyString
  | S n', String c s' => String c (slice_to n' s')
  | S _, EmptyString => EmptyString
  end.

(** [strings.TrimPrefix(s, prefix)] *)
Definition TrimPrefix (s prefix : string) : string :=
  if HasPrefix s prefix then slice_from (String.length prefix) s else s.

(** [strings.HasSuffix(s, suffix)]:
    [len(s) >= len(suffix) && s[len(s)-len(suffix):] == suffix] *)
Definition HasSuffix (s suffix : string) : bool :=
  (String.length suffix <=? String.length s)%nat
  && String.eqb (slice_from (String.length s - String.length suffix) s) suffix.

(** [strings.Contains(s, substr)]: some position of [s] starts [substr] *)
Fixpoint Contains (s substr : string) : bool :=
  HasPrefix s substr
  || match s with
     | EmptyString => false
     | String _ s' => Contains s' substr
     end.

End strings.

(** ** Data *)

(** A Go [error] value, identified with its message. *)
Definition error := string.

(** [ast.ImportSpec]: the optional local name and the path literal as it is
    written in the source, quotes included. *)
Record ImportSpec := {
  Name : option string;
  PathValue : string
}.

(** [type replacer struct] *)
Record replacer := {
  name : string;
  oldPath : string;
  newPath : string
}.

(** [printer.Config] *)
Record PrinterConfig := {
  PrinterMode : Z;
  Tabwidth : Z
}.

Module printer.
(** [RawFormat Mode = 1 << iota; TabIndent; UseSpaces; SourcePos] *)
Definition RawFormat : Z := Z.shiftl 1 0.
Definition TabIndent : Z := Z.shiftl 1 1.
Definition UseSpaces : Z := Z.shiftl 1 2.
End printer.

Definition tabWidth : Z := 8.
Definition printerMode : Z := Z.lor printer.UseSpaces printer.TabIndent.

Definition codeSuffixSkipped : list string :=
  ["pb.go"; "pb.gopherjs.go"; "stateGen.go"; "reactGen.go"].

(** The syntax tools the program imports.  [File] stands for an [*ast.File]
    with its [token.FileSet]; the tools that mutate the tree in Go return
    the new tree here. *)
Class GoToolchain := {
  File : Type;
  (** [parser.ParseFile] applied to the bytes of a file, with
      [parser.ParseComments] *)
  ParseFile : string -> error + File;
  (** [astutil.Imports] *)
  Imports : File -> list (list ImportSpec);
  (** [strconv.Unquote] *)
  Unquote : string -> error + string;
  (** [astutil.DeleteNamedImport fset file name path] *)
  DeleteNamedImport : File -> string -> string -> File * bool;
  (** [astutil.AddNamedImport fset file name path] *)
  AddNamedImport : File -> string -> string -> File * bool;
  (** [(&printer.Config{...}).Fprint] into a fresh buffer *)
  Fprint : PrinterConfig -> File -> error + string;
  (** [format.Source] *)
  Source : string -> error + string
}.

(** ** The operating system *)

(** A file: its [os.FileMode] and its bytes. *)
Record FileNode := {
  Mode : Z;
  Data : string
}.

(** [os.ModePerm] and [FileMode.Perm] *)
Definition ModePerm : Z := 511.
Definition Perm (m : Z) : Z := Z.land m ModePerm.

(** [os.FileInfo], as far as [handle] looks at it. *)
Record FileInfo := {
  FileName : string;
  IsDir : bool
}.

(** The system calls the program makes, with the path they act on. *)
Inductive Syscall :=
  | SysOpen (path : string)
  | SysStat (path : string)
  | SysReadAll (path : string)
  | SysReadFile (path : string)
  | SysTempFile (dir pattern : string)
  | SysChmod (path : string)
  | SysWrite (path : string)
  | SysClose (path : string)
  | SysWriteFile (path : string)
  | SysRename (oldpath newpath : string)
  | SysRemove (path : string).

(** What the host lets a system call do.  [FailAfter e n] is a write that
    reports [e] after [n] bytes have reached the file. *)
Inductive Outcome :=
  | Ok
  | Fail (e : error)
  | FailAfter (e : error) (n : nat).

Definition failure (o : Outcome) : option error :=
  match o with
  | Ok => None
  | Fail e => Some e
  | FailAfter e _ => Some e
  end.

(** One callback invocation of [filepath.Walk]. *)
Record WalkEntry := {
  wpath : string;
  winfo : FileInfo;
  werr : option error
}.

(** Everything the machine contributes to a run. *)
Record Host := {
  (** [runtime.GOOS] *)
  GOOS : string;
  (** which system calls fail *)
  faults : Syscall -> Outcome;
  (** the random suffix [ioutil.TempFile] proposes at its n-th attempt *)
  nextRandom : nat -> string;
  (** the entries [filepath.Walk] yields for a root, in its lexical order;
      a failed [Lstat] or directory read is an entry with an error *)
  tree : string -> list WalkEntry
}.

(** The flags [-d], [-s] and [-r] after [flag.Parse]. *)
Record Flags := {
  dir : string;
  source : string;
  dest : string
}.

(** The mutable state of a run: the files, what was written to standard
    error, and the package variable [replaceRules].  Every path of the file
    map is a file of its own: symbolic links and second hard links, through
    which a write to one path would change another, are not represented. *)
Record World := {
  fs : gmap string FileNode;
  stderr : list string;
  replaceRules : gmap string string
}.

(** [var replaceRules = map[string]string{}] *)
Definition boot (files : gmap string FileNode) : World :=
  {| fs := files; stderr := []; replaceRules := ∅ |}.

Definition with_fs (w : World) (files : gmap string FileNode) : World :=
  {| fs := files; stderr := stderr w; replaceRules := replaceRules w |}.

Definition with_rules (w : World) (rules : gmap string string) : World :=
  {| fs := fs w; stderr := stderr w; replaceRules := rules |}.

(** [log.Println] and [log.Printf] append one line to standard error. *)
Definition log_line (line : string) (w : World) : World :=
  {| fs := fs w; stderr := stderr w ++ [line]; replaceRules := replaceRules w |}.

(** ** State passing *)

Definition M (A : Type) : Type := World -> A * World.

Definition ret {A} (a : A) : M A := fun w => (a, w).

Definition bind {A B} (m : M A) (k : A -> M B) : M B :=
  fun w => let '(a, w') := m w in k a w'.

(** [try m k]: the Go idiom [x, err := m; if err != nil { errx = err; return nil }] *)
Definition try {A B} (m : M (error + A)) (k : A -> M (error + B)) : M (error + B) :=
  fun w =>
    match m w with
    | (inl e, w') => (inl e, w')
    | (inr a, w') => k a w'
    end.

Definition pure {A} (r : error + A) : M (error + A) := fun w => (r, w).

Declare Scope go_scope.
Delimit Scope go_scope with go.
Notation "x <- m ;; k" := (bind m (fun x => k))
  (at level 100, m at next level, right associativity) : go_scope.
Notation "x <-? m ;; k" := (try m (fun x => k))
  (at level 100, m at next level, right associativity) : go_scope.
Local Open Scope go_scope.

(** ** The program *)

(** [log.Printf("rewrite import fails with %s due to %s", path, errx)] *)
Definition diagnostic (path : string) (errx : error) : string :=
  "rewrite import fails with " +:+ path +:+ " due to " +:+ errx.

Section Program.

Context {tc : GoToolchain} (h : Host).

(** *** System calls

    An open file is named by its path. *)

(** [os.Open] *)
Definition os_Open (path : string) : M (error + string) := fun w =>
  match failure (faults h (SysOpen path)) with
  | Some e => (inl e, w)
  | None =>
      match fs w !! path with
      | Some _ => (inr path, w)
      | None => (inl ("open " +:+ path +:+ ": no such file or directory"), w)
      end
  end.

(** [os.File.Stat], giving the mode *)
Definition File_Stat (f : string) : M (error + Z) := fun w =>
  match failure (faults h (SysStat f)) with
  | Some e => (inl e, w)
  | None =>
      match fs w !! f with
      | Some node => (inr (Mode node), w)
      | None => (inl ("stat " +:+ f +:+ ": no such file or directory"), w)
      end
  end.

(** [ioutil.ReadAll] on an open file *)
Definition ioutil_ReadAll (f : string) : M (error + string) := fun w =>
  match failure (faults h (SysReadAll f)) with
  | Some e => (inl e, w)
  | None =>
      match fs w !! f with
      | Some node => (inr (Data node), w)
      | None => (inl ("read " +:+ f +:+ ": no such file or directory"), w)
      end
  end.

(** [parser.ParseFile(fset, path, nil, parser.ParseComments)]: with a nil
    source the parser reads the file at [path] itself. *)
Definition parser_ParseFile (path : string) : M (error + File) := fun w =>
  match failure (faults h (SysReadFile path)) with
  | Some e => (inl e, w)
  | None =>
      match fs w !! path with
      | Some node => (ParseFile (Data node), w)
      | None => (inl ("open " +:+ path +:+ ": no such file or directory"), w)
      end
  end.

(** [filepath.Dir], [filepath.Base] and [filepath.Join] on the slash
    separated, already clean paths [filepath.Walk] hands out. *)
Fixpoint split_last (s : string) : option string * string :=
  match s with
  | EmptyString => (None, EmptyString)
  | String c s' =>
      match split_last s' with
      | (Some d, b) => (Some (String c d), b)
      | (None, b) =>
          if Ascii.eqb c "/" then (Some EmptyString, b) else (None, String c b)
      end
  end.

Definition filepath_Dir (p : string) : string :=
  match fst (split_last p) with
  | None => "."
  | Some EmptyString => "/"
  | Some d => d
  end.

Definition filepath_Base (p : string) : string := snd (split_last p).

Definition filepath_Join (d b : string) : string :=
  if String.eqb d "." then b
  else if String.eqb d "/" then "/" +:+ b
  else d +:+ "/" +:+ b.

(** [ioutil.TempFile] gives up after 10000 attempts. *)
Definition tempAttempts : nat := 100 * 100.

(** The name [ioutil.TempFile] settles on: the first proposal that does not
    exist yet ([O_EXCL]), within the 10000 attempts it makes. *)
Fixpoint tempName (files : gmap string FileNode) (d pattern : string)
    (attempt fuel : nat) : option string :=
  match fuel with
  | O => None
  | S fuel' =>
      let nm := filepath_Join d (pattern +:+ nextRandom h attempt) in
      match files !! nm with
      | None => Some nm
      | Some _ => tempName files d pattern (S attempt) fuel'
      end
  end.


(** [ioutil.TempFile(dir, pattern)]: a new empty file with mode 0600 *)
Definition ioutil_TempFile (d pattern : string) : M (error + string) := fun w =>
  match failure (faults h (SysTempFile d pattern)) with
  | Some e => (inl e, w)
  | None =>
      match tempName (fs w) d pattern 0 tempAttempts with
      | Some nm => (inr nm, with_fs w (<[nm := {| Mode := 384; Data := EmptyString |}]> (fs w)))
      | None => (inl "file exists", w)
      end
  end.

(** [os.File.Chmod] *)
Definition File_Chmod (f : string) (perm : Z) : M (option error) := fun w =>
  match failure (faults h (SysChmod f)) with
  | Some e => (Some e, w)
  | None =>
      match fs w !! f with
      | Some node => (None, with_fs w (<[f := {| Mode := perm; Data := Data node |}]> (fs w)))
      | None => (Some ("chmod " +:+ f +:+ ": no such file or directory"), w)
      end
  end.

(** [os.File.Write] at the start of a new file *)
Definition File_Write (f : string) (data : string) : M (option error) := fun w =>
  match fs w !! f with
  | None => (Some ("write " +:+ f +:+ ": file already closed"), w)
  | Some node =>
      match faults h (SysWrite f) with
      | Ok => (None, with_fs w (<[f := {| Mode := Mode node; Data := data |}]> (fs w)))
      | Fail e => (Some e, w)
      | FailAfter e n =>
          (Some e,
           with_fs w (<[f := {| Mode := Mode node; Data := strings.slice_to n data |}]> (fs w)))
      end
  end.

(** [os.File.Close] *)
Definition File_Close (f : string) : M (option error) := fun w =>
  (failure (faults h (SysClose f)), w).

(** [os.Remove] *)
Definition os_Remove (nm : string) : M (option error) := fun w =>
  match failure (faults h (SysRemove nm)) with
  | Some e => (Some e, w)
  | None =>
      match fs w !! nm with
      | Some _ => (None, with_fs w (delete nm (fs w)))
      | None => (Some ("remove " +:+ nm +:+ ": no such file or directory"), w)
      end
  end.

(** [os.Rename]: the file at [oldpath] replaces whatever is at [newpath] *)
Definition os_Rename (oldpath newpath : string) : M (option error) := fun w =>
  match failure (faults h (SysRename oldpath newpath)) with
  | Some e => (Some e, w)
  | None =>
      match fs w !! oldpath with
      | Some node => (None, with_fs w (<[newpath := node]> (delete oldpath (fs w))))
      | None => (Some ("rename " +:+ oldpath +:+ ": no such file or directory"), w)
      end
  end.

(** [ioutil.WriteFile(filename, data, perm)]: open with
    [O_WRONLY|O_CREATE|O_TRUNC], write, close.  An existing file keeps its
    mode; [perm] is used only when the file is created.  A failure before
    the open leaves the file alone, a later one leaves a truncated file. *)
Definition ioutil_WriteFile (filename : string) (data : string) (perm : Z)
    : M (option error) := fun w =>
  let mode := match fs w !! filename with Some node => Mode node | None => perm end in
  match faults h (SysWriteFile filename) with
  | Ok => (None, with_fs w (<[filename := {| Mode := mode; Data := data |}]> (fs w)))
  | Fail e => (Some e, w)
  | FailAfter e n =>
      (Some e,
       with_fs w (<[filename := {| Mode := mode; Data := strings.slice_to n data |}]> (fs w)))
  end.

(** *** The functions of yolk.go *)

(** [const chmodSupported = runtime.GOOS != "windows"] *)
Definition chmodSupported : bool := negb (String.eqb (GOOS h) "windows").

(** [func exitOnErr(err error)]: log the error, leave with status 255 *)
Definition exitOnErr (err : error) : M Z := fun w => (255, log_line err w).

(** [func importPath(s *ast.ImportSpec) string] *)
Definition importPath (s : ImportSpec) : string :=
  match Unquote (PathValue s) with
  | inl _ => EmptyString
  | inr t => t
  end.

(** [func importName(s *ast.ImportSpec) string] *)
Definition importName (s : ImportSpec) : string :=
  match Name s with
  | None => EmptyString
  | Some n => n
  end.

(** The body of [for pre, will := range replaceRules] for one import. *)
Definition matchRules (rules : list (string * string)) (imp : ImportSpec)
    : list replacer :=
  let impPath := importPath imp in
  flat_map
    (fun '(pre, will) =>
       if strings.HasPrefix impPath pre then
         let np := will +:+ strings.TrimPrefix impPath pre in
         let op := impPath in
         [ {| oldPath := op; newPath := np; name := importName imp |} ]
       else [])
    rules.

(** Lines 150-165 of [rewriteImport]: the pending substitutions, one per
    import and matching rule.  Go ranges over the map in an unspecified
    order; here the rules come in the order of [map_to_list], which is
    immaterial for a map with at most one entry. *)
Definition collectReplacers (rules : gmap string string)
    (imports : list (list ImportSpec)) : list replacer :=
  flat_map (fun grp => flat_map (matchRules (map_to_list rules)) grp) imports.

(** Lines 167-177 of [rewriteImport]: delete the old import, add the new
    one, for every pending substitution in turn. *)
Fixpoint applyReplacers (file : File) (rs : list replacer) : error + File :=
  match rs with
  | [] => inr file
  | r :: rs' =>
      let '(file1, deleted) := DeleteNamedImport file (name r) (oldPath r) in
      if negb deleted then inl "delete old path fails"
      else
        let '(file2, added) := AddNamedImport file1 (name r) (newPath r) in
        if negb added then inl "add new path fails"
        else applyReplacers file2 rs'
  end.

(** [func backupFile(filename string, data []byte, perm os.FileMode)
    (string, error)] *)
Definition backupFile (filename : string) (data : string) (perm : Z)
    : M (string * option error) :=
  r <- ioutil_TempFile (filepath_Dir filename) (filepath_Base filename) ;;
  match r with
  | inl err => ret (EmptyString, Some err)
  | inr backname =>
      cerr <- (if chmodSupported then File_Chmod backname perm else ret None) ;;
      match cerr with
      | Some err =>
          _ <- File_Close backname ;;
          _ <- os_Remove backname ;;
          ret (backname, Some err)
      | None =>
          werr <- File_Write backname data ;;
          match werr with
          | Some err => ret (backname, Some err)
          | None =>
              cl <- File_Close backname ;;
              match cl with
              | Some err => ret (backname, Some err)
              | None => ret (backname, None)
              end
          end
      end
  end.

(** What [rewriteImport] has in hand once the file is read and parsed
    (lines 122-148). *)
Record Loaded := {
  perm : Z;
  src : string;
  file : File
}.

Definition load (path : string) : M (error + Loaded) :=
  f <-? os_Open path ;;
  mode <-? File_Stat f ;;
  let perm := Perm mode in
  src <-? ioutil_ReadAll f ;;
  file <-? parser_ParseFile path ;;
  pure (inr {| perm := perm; src := src; file := file |}).

(** Lines 150-190: match, substitute, print, format.  No system call. *)
Definition render (rules : gmap string string) (file : File) : error + string :=
  let replacers := collectReplacers rules (Imports file) in
  match applyReplacers file replacers with
  | inl err => inl err
  | inr file' =>
      let cfg := {| PrinterMode := printerMode; Tabwidth := tabWidth |} in
      match Fprint cfg file' with
      | inl err => inl err
      | inr dst => Source dst
      end
  end.

(** Lines 192-212: backup, overwrite, and restore or clean up. *)
Definition commit (path : string) (src bs : string) (perm : Z) : M (error + unit) :=
  b <- backupFile (path +:+ ".") src perm ;;
  match b with
  | (_, Some err) => ret (inl err)
  | (backname, None) =>
      werr <- ioutil_WriteFile path bs perm ;;
      match werr with
      | Some err =>
          _ <- os_Rename backname path ;;
          ret (inl err)
      | None =>
          rerr <- os_Remove backname ;;
          match rerr with
          | Some err => ret (inl err)
          | None => ret (inr tt)
          end
      end
  end.

(** The body of [rewriteImport]; the result is the final value of [errx]. *)
Definition rewriteImport_errx (path : string) : M (error + unit) :=
  l <-? load path ;;
  rules <- (fun w => (replaceRules w, w)) ;;
  bs <-? pure (render rules (file l)) ;;
  commit path (src l) bs (perm l).

(** [func rewriteImport(path string) error]: the deferred function logs
    [errx]; the function itself returns nil on every path. *)
Definition rewriteImport (path : string) : M (option error) :=
  r <- rewriteImport_errx path ;;
  match r with
  | inl errx =>
      fun w => (None, log_line (diagnostic path errx) w)
  | inr _ => ret None
  end.

(** [var handle = func(path string, info os.FileInfo, errx error) error] *)
Definition handle (path : string) (info : FileInfo) (errx : option error)
    : M (option error) :=
  match errx with
  | Some e => ret (Some e)
  | None =>
      if IsDir info then ret None
      else if strings.Contains path "vendor" then ret None
      else
        let filename := FileName info in
        if negb (strings.HasSuffix filename ".go") then ret None
        else if existsb (fun skip => strings.HasSuffix filename skip) codeSuffixSkipped
        then ret None
        else
          err <- rewriteImport path ;;
          match err with
          | Some e => ret (Some e)
          | None => ret None
          end
  end.

(** [filepath.Walk]: call [fn] on the entries in order and stop at the first
    error it returns. *)
Fixpoint Walk (entries : list WalkEntry)
    (fn : string -> FileInfo -> option error -> M (option error)) : M (option error) :=
  match entries with
  | [] => ret None
  | e :: rest =>
      r <- fn (wpath e) (winfo e) (werr e) ;;
      match r with
      | Some err => ret (Some err)
      | None => Walk rest fn
      end
  end.

(** [func initReplaceRules()] *)
Definition initReplaceRules (flags : Flags) : M unit := fun w =>
  (tt, with_rules w {[ source flags := dest flags ]}).

(** [func main()]; the result is the exit status. *)
Definition main (flags : Flags) : M Z :=
  if String.eqb (dir flags) EmptyString then
    exitOnErr "you must specify a directory to handle"
  else if String.eqb (source flags) EmptyString || String.eqb (dest flags) EmptyString then
    exitOnErr "you must specify a source or destination import path to handle"
  else
    r <- Walk (tree h (dir flags)) handle ;;
    match r with
    | Some err => exitOnErr err
    | None => ret 0
    end.

End Program.

(** ** A reference toolchain

    An executable [GoToolchain] for the line-oriented fragment of Go made of
    a package clause followed by ungrouped import declarations, one per
    line.  Blank lines and the spacing between tokens are free in the input;
    the printer writes the canonical text: the package clause, an empty
    line, one import per line with single spaces. *)

Module Ref.

Definition is_blank (c : ascii) : bool :=
  Ascii.eqb c " " || Ascii.eqb c "009" || Ascii.eqb c "013".

(** The lines of a text, without their newline characters. *)
Fixpoint lines (s : string) : list string :=
  match s with
  | EmptyString => [EmptyString]
  | String c s' =>
      if Ascii.eqb c "010" then EmptyString :: lines s'
      else match lines s' with
           | [] => [String c EmptyString]
           | l :: ls => String c l :: ls
           end
  end.

(** The blank-separated words of a line, as [strings.Fields]. *)
Fixpoint fields_from (cur : string) (s : string) : list string :=
  let flush := match cur with EmptyString => [] | _ => [cur] end in
  match s with
  | EmptyString => flush
  | String c s' =>
      if is_blank c then flush ++ fields_from EmptyString s'
      else fields_from (cur +:+ String c EmptyString) s'
  end.

Definition fields (s : string) : list string := fields_from EmptyString s.

Fixpoint all_chars (p : ascii -> bool) (s : string) : bool :=
  match s with
  | EmptyString => true
  | String c s' => p c && all_chars p s'
  end.

Definition last_char (s : string) : option ascii :=
  String.get (String.length s - 1) s.

(** [strconv.Unquote] on interpreted literals without escapes and on raw
    literals. *)
Definition unquote (lit : string) : error + string :=
  match lit with
  | String q rest =>
      let body := strings.slice_to (String.length rest - 1) rest in
      let dq := Ascii.eqb q "034" in
      let bq := Ascii.eqb q "`" in
      let closed := match last_char rest with
                    | Some c => Ascii.eqb c q
                    | None => false
                    end in
      let plain c := negb (Ascii.eqb c q) && negb (dq && Ascii.eqb c "\")
                     && negb (dq && Ascii.eqb c "010") in
      if (dq || bq) && closed && all_chars plain body then inr body
      else inl "invalid syntax"
  | EmptyString => inl "invalid syntax"
  end.

(** [strconv.Quote] on text that needs no escape. *)
Definition quote (s : string) : string :=
  String "034" (s +:+ String "034" EmptyString).

Record file := {
  pkg : string;
  specs : list ImportSpec
}.

Definition specPath (s : ImportSpec) : string :=
  match unquote (PathValue s) with
  | inl _ => EmptyString
  | inr t => t
  end.

Definition specName (s : ImportSpec) : string :=
  match Name s with
  | None => EmptyString
  | Some n => n
  end.

Definition is_literal (lit : string) : bool :=
  match unquote lit with
  | inl _ => false
  | inr _ => true
  end.

Definition parse_import (words : list string) : error + ImportSpec :=
  match words with
  | [kw; lit] =>
      if String.eqb kw "import" && is_literal lit
      then inr {| Name := None; PathValue := lit |}
      else inl "expected declaration"
  | [kw; nm; lit] =>
      if String.eqb kw "import" && is_literal lit
      then inr {| Name := Some nm; PathValue := lit |}
      else inl "expected declaration"
  | _ => inl "expected declaration"
  end.

Fixpoint parse_imports (ls : list (list string)) : error + list ImportSpec :=
  match ls with
  | [] => inr []
  | l :: ls' =>
      match parse_import l with
      | inl e => inl e
      | inr s =>
          match parse_imports ls' with
          | inl e => inl e
          | inr ss => inr (s :: ss)
          end
      end
  end.

Definition nonempty {A} (l : list A) : bool :=
  match l with [] => false | _ => true end.

Definition parse (text : string) : error + file :=
  match filter (fun l => nonempty l = true) (map fields (lines text)) with
  | [kw; p] :: rest =>
      if String.eqb kw "package" then
        match parse_imports rest with
        | inl e => inl e
        | inr ss => inr {| pkg := p; specs := ss |}
        end
      else inl "expected 'package'"
  | _ => inl "expected 'package'"
  end.

Definition newline : string := String "010" EmptyString.

Definition print_spec (s : ImportSpec) : string :=
  match Name s with
  | None => "import " +:+ PathValue s +:+ newline
  | Some n => "import " +:+ n +:+ " " +:+ PathValue s +:+ newline
  end.

Definition print (f : file) : string :=
  "package " +:+ pkg f +:+ newline
  +:+ match specs f with
      | [] => EmptyString
      | ss => newline +:+ foldr (fun s acc => print_spec s +:+ acc) EmptyString ss
      end.

(** [astutil.Imports]: one group per import declaration. *)
Definition imports (f : file) : list (list ImportSpec) :=
  map (fun s => [s]) (specs f).

Definition same_import (nm path : string) (s : ImportSpec) : bool :=
  String.eqb (specName s) nm && String.eqb (specPath s) path.

(** [astutil.DeleteNamedImport]: every spec with this name and path goes;
    the result tells whether there was one. *)
Definition delete_named (f : file) (nm path : string) : file * bool :=
  ({| pkg := pkg f;
      specs := filter (fun s => same_import nm path s = false) (specs f) |},
   existsb (same_import nm path) (specs f)).

(** [astutil.AddNamedImport]: refuse an import that is already there,
    otherwise add a declaration for it. *)
Definition add_named (f : file) (nm path : string) : file * bool :=
  if existsb (same_import nm path) (specs f) then (f, false)
  else
    ({| pkg := pkg f;
        specs := specs f ++
          [ {| Name := if String.eqb nm EmptyString then None else Some nm;
               PathValue := quote path |} ] |},
     true).

(** [format.Source]: parse and print again. *)
Definition source (text : string) : error + string :=
  match parse text with
  | inl e => inl e
  | inr f => inr (print f)
  end.

Definition toolchain : GoToolchain := {|
  File := file;
  ParseFile := parse;
  Imports := imports;
  Unquote := unquote;
  DeleteNamedImport := delete_named;
  AddNamedImport := add_named;
  Fprint := fun _ f => inr (print f);
  Source := source
|}.

End Ref.

(** ** Concrete files and hosts *)

Module Demo.

Definition nl : string := Ref.newline.
Definition dq : string := String "034" EmptyString.

(** [import "path"] and [import name "path"] in canonical spelling *)
Definition import_line (nm path : string) : string :=
  match nm with
  | EmptyString => "import " +:+ dq +:+ path +:+ dq +:+ nl
  | _ => "import " +:+ nm +:+ " " +:+ dq +:+ path +:+ dq +:+ nl
  end.

Definition go_file (body : list string) : string :=
  "package p" +:+ nl +:+ nl +:+ foldr String.append EmptyString body.

(** A file that imports github.com/foo/bar/sub as x. *)
Definition aliased_src : string := go_file [import_line "x" "github.com/foo/bar/sub"].
Definition aliased_dst : string := go_file [import_line "x" "example.com/baz/sub"].

(** A file that imports only fmt, written without the empty line after the
    package clause and with three spaces after the keyword. *)
Definition loose_src : string :=
  "package p" +:+ nl +:+ "import   " +:+ dq +:+ "fmt" +:+ dq +:+ nl.
Definition loose_fmt : string := go_file [import_line EmptyString "fmt"].


(** Files importing a/x, ab/x and abb/x. *)
Definition a_src : string := go_file [import_line EmptyString "a/x"].
Definition ab_src : string := go_file [import_line EmptyString "ab/x"].
Definition abb_src : string := go_file [import_line EmptyString "abb/x"].

Definition regular (nm : string) : FileInfo := {| FileName := nm; IsDir := false |}.
Definition directory (nm : string) : FileInfo := {| FileName := nm; IsDir := true |}.

Definition visit (path nm : string) : WalkEntry :=
  {| wpath := path; winfo := regular nm; werr := None |}.

(** The temp-file generator proposes 0, 00, 000 and so on. *)
Fixpoint zeros (n : nat) : string :=
  match n with
  | O => "0"
  | S n' => String "0" (zeros n')
  end.

Definition host (fl : Syscall -> Outcome) (entries : list WalkEntry) : Host :=
  {| GOOS := "linux"; faults := fl; nextRandom := zeros; tree := fun _ => entries |}.

(** The directory holds the single file a.go. *)
Definition one_file : list WalkEntry :=
  [ {| wpath := "."; winfo := directory "."; werr := None |}; visit "a.go" "a.go" ].

Definition calm : Host := host (fun _ => Ok) one_file.

(** Overwriting a.go fails after the file has been truncated. *)
Definition write_fails (sc : Syscall) : Outcome :=
  match sc with
  | SysWriteFile _ => FailAfter "no space left on device" 0
  | _ => Ok
  end.

(** The same, and the rename that should restore the file fails too. *)
Definition write_and_rename_fail (sc : Syscall) : Outcome :=
  match sc with
  | SysWriteFile _ => FailAfter "no space left on device" 0
  | SysRename _ _ => Fail "input/output error"
  | _ => Ok
  end.

(** Writing the backup fails after nine bytes. *)
Definition backup_write_fails (sc : Syscall) : Outcome :=
  match sc with
  | SysWrite _ => FailAfter "no space left on device" 9
  | _ => Ok
  end.


Definition disk (path content : string) : gmap string FileNode :=
  {[ path := {| Mode := 420; Data := content |} ]}.

Definition flags : Flags :=
  {| dir := "."; source := "github.com/foo/bar"; dest := "example.com/baz" |}.

(** The syntax tree the reference parser builds for a text it accepts. *)
Definition parsed (text : string) : Ref.file :=
  match Ref.parse text with
  | inr f => f
  | inl _ => {| Ref.pkg := EmptyString; Ref.specs := [] |}
  end.

Definition a_ab : Flags := {| dir := "."; source := "a"; dest := "ab" |}.

(** [main] with the call of [initReplaceRules] that the program defines but
    never makes. *)
Definition main_with_rules (h : Host) (fl : Flags) : M Z :=
  _ <- initReplaceRules fl ;;
  main (tc := Ref.toolchain) h fl.

End Demo.

(** ** The candidate test as the specification words it *)

Module Spec.

(** The slash-separated segments of a path. *)
Fixpoint segments (p : string) : list string :=
  match p with
  | EmptyString => [EmptyString]
  | String c p' =>
      if Ascii.eqb c "/" then EmptyString :: segments p'
      else match segments p' with
           | [] => [String c EmptyString]
           | s :: ss => String c s :: ss
           end
  end.

(** "its path does not contain a vendored-dependency directory segment" *)
Definition in_vendor_dir (p : string) : bool :=
  existsb (String.eqb "vendor") (segments p).

(** "a regular file, not under a vendored directory, named *.go, and not
    named with a generated-code suffix" *)
Definition candidate (path : string) (info : FileInfo) : bool :=
  negb (IsDir info)
  && negb (in_vendor_dir path)
  && strings.HasSuffix (FileName info) ".go"
  && forallb (fun skip => negb (strings.HasSuffix (FileName info) skip)) codeSuffixSkipped.

End Spec.

(** The candidate test the program makes. *)
Definition selected (path : string) (info : FileInfo) : bool :=
  negb (IsDir info)
  && negb (strings.Contains path "vendor")
  && strings.HasSuffix (FileName info) ".go"
  && forallb (fun skip => negb (strings.HasSuffix (FileName info) skip)) codeSuffixSkipped.

(** ** Vocabulary of the statements *)

(** A host on which no system call fails. *)
Definition quiet (h : Host) : Prop := forall sc, faults h sc = Ok.

(** The name [backupFile] obtains for the backup of [path]. *)
Definition backupName (h : Host) (files : gmap string FileNode) (path : string)
    : option string :=
  tempName h files (filepath_Dir (path +:+ ".")) (filepath_Base (path +:+ "."))
    0 tempAttempts.

(** The mode of a finished backup: the original permission bits where
    [chmodSupported], the 0600 of [ioutil.TempFile] elsewhere. *)
Definition backupMode (h : Host) (perm : Z) : Z :=
  if chmodSupported h then perm else 384.

(** The configuration [rewriteImport] prints with. *)
Definition cfg : PrinterConfig :=
  {| PrinterMode := printerMode; Tabwidth := tabWidth |}.

(** The world after [handle] has been called on every entry of a list. *)
Definition handle_all {tc : GoToolchain} (h : Host) (entries : list WalkEntry)
    (w : World) : World :=
  foldl (fun w e => snd (handle h (wpath e) (winfo e) (werr e) w)) w entries.


(** The entries a walk gets through: those before the first error. *)
Fixpoint walked (entries : list WalkEntry) : list WalkEntry :=
  match entries with
  | [] => []
  | e :: rest =>
      match werr e with
      | Some _ => []
      | None => e :: walked rest
      end
  end.

(** An entry [handle] passes on to [rewriteImport]. *)
Definition visited (e : WalkEntry) : bool :=
  match werr e with
  | Some _ => false
  | None => selected (wpath e) (winfo e)
  end.

(** What a run makes of the text of a file: parse it, then [render]. *)
Definition rewritten {tc : GoToolchain} (rules : gmap string string)
    (text : string) : error + string :=
  match ParseFile text with
  | inl e => inl e
  | inr f => render rules f
  end.

(** The text a run writes for [text] is left as it is by another run. *)
Definition settles {tc : GoToolchain} (rules : gmap string string)
    (text : string) : Prop :=
  forall bs, rewritten rules text = inr bs -> rewritten rules bs = inr bs.

(** The files after [rewriteImport] on a host without failing calls: the
    file at [p] gets the rewritten text when there is one and a backup name
    is free; otherwise nothing changes. *)
Definition settle_file {tc : GoToolchain} (h : Host) (rules : gmap string string)
    (p : string) (files : gmap string FileNode) : gmap string FileNode :=
  match files !! p with
  | None => files
  | Some node =>
      match rewritten rules (Data node), backupName h files p with
      | inr bs, Some _ => <[p := {| Mode := Mode node; Data := bs |}]> files
      | _, _ => files
      end
  end.

Definition settle_entry {tc : GoToolchain} (h : Host) (rules : gmap string string)
    (files : gmap string FileNode) (e : WalkEntry) : gmap string FileNode :=
  if visited e then settle_file h rules (wpath e) files else files.

Definition settle_all {tc : GoToolchain} (h : Host) (rules : gmap string string)
    (entries : list WalkEntry) (files : gmap string FileNode) : gmap string FileNode :=
  foldl (settle_entry h rules) files entries.

(** A file on which [settle_file] has nothing left to do. *)
Definition inert {tc : GoToolchain} (h : Host) (rules : gmap string string)
    (p : string) (files : gmap string FileNode) : Prop :=
  match files !! p with
  | None => True
  | Some node =>
      match rewritten rules (Data node), backupName h files p with
      | inr bs, Some _ => bs = Data node
      | _, _ => True
      end
  end.

(** Every file the walk will visit holds a text that [settles]. *)
Definition settling {tc : GoToolchain} (rules : gmap string string)
    (entries : list WalkEntry) (files : gmap string FileNode) : Prop :=
  forall e node, In e entries -> visited e = true ->
                 files !! wpath e = Some node -> settles rules (Data node).

(** ** The rest of the program, and more files to run it on *)

(** [func usage()]: the help text goes to standard error, line by line, and
    the process leaves with status 0. *)
Definition usage : M Z := fun w =>
  (0,
   foldl (fun w line => log_line line w) w
     [ "yolk is go source code import statement modifier";
       "Usage: yolk [options]";
       "Options: ";
       "-d   source code directory which to handle";
       "-s   source import path which to replace";
       "-r   destination import path which to replace" ]).


Module Cases.

(** A text without a package clause. *)
Definition broken_src : string := "func main() {}".

(** Removing a file fails; every other call succeeds. *)
Definition remove_fails (sc : Syscall) : Outcome :=
  match sc with
  | SysRemove _ => Fail "permission denied"
  | _ => Ok
  end.

(** No temp file can be created; every other call succeeds. *)
Definition tempfile_fails (sc : Syscall) : Outcome :=
  match sc with
  | SysTempFile _ _ => Fail "read-only file system"
  | _ => Ok
  end.

(** A tree with a generated file and a vendored file beside a.go. *)
Definition mixed_walk : list WalkEntry :=
  [ {| wpath := "."; winfo := Demo.directory "."; werr := None |};
    Demo.visit "a.go" "a.go";
    Demo.visit "api_pb.go" "api_pb.go";
    {| wpath := "vendor"; winfo := Demo.directory "vendor"; werr := None |};
    Demo.visit "vendor/x.go" "x.go" ].

Definition mixed_disk : gmap string FileNode :=
  <["a.go" := {| Mode := 420; Data := Demo.loose_src |}]>
    (<["api_pb.go" := {| Mode := 420; Data := Demo.loose_src |}]>
       (<["vendor/x.go" := {| Mode := 292; Data := Demo.loose_src |}]> ∅)).

(** Two imports, the first of which the rule of [Demo.flags] matches. *)
Definition two_groups : list (list ImportSpec) :=
  [ [ {| Name := Some "x";
         PathValue := Demo.dq +:+ "github.com/foo/barbaz/sub" +:+ Demo.dq |} ];
    [ {| Name := None; PathValue := Demo.dq +:+ "fmt" +:+ Demo.dq |} ] ].

End Cases.



(** * Properties *)

(** The bound on the attempts of [ioutil.TempFile] stays folded in proofs. *)
Opaque tempAttempts.

(** Split on the innermost scrutinee of the goal. *)
Ltac case_inner :=
  match goal with
  | |- context [match ?x with _ => _ end] =>
      lazymatch x with
      | context [match _ with _ => _ end] => fail
      | _ => destruct x eqn:?
      end
  end.

(** ** Prefixes *)

Section Prefixes.

Import strings.

Lemma HasPrefix_app (p r : string) : HasPrefix (p +:+ r) p = true.
Proof.
  induction p as [|c p IH]; [reflexivity|].
  change (String c p +:+ r) with (String c (p +:+ r)).
  cbn [HasPrefix]. rewrite Ascii.eqb_refl. exact IH.
Qed.

Lemma slice_from_app (p r : string) : slice_from (String.length p) (p +:+ r) = r.
Proof. induction p as [|c p IH]; [reflexivity|exact IH]. Qed.

Lemma TrimPrefix_app (p r : string) : TrimPrefix (p +:+ r) p = r.
Proof. unfold TrimPrefix. rewrite HasPrefix_app. apply slice_from_app. Qed.


(** When neither of two strings starts with the other, nothing that
    starts with one of them starts with the other. *)
Lemma HasPrefix_apart (a b r : string) :
  HasPrefix a b = false -> HasPrefix b a = false ->
  HasPrefix (b +:+ r) a = false.
Proof.
  revert b. induction a as [|c a IH]; intros b Hab Hba.
  - destruct b; discriminate.
  - destruct b as [|d b]; [discriminate|].
    change (String d b +:+ r) with (String d (b +:+ r)).
    cbn [HasPrefix] in *. rewrite (Ascii.eqb_sym d c) in Hab.
    destruct (Ascii.eqb c d) eqn:E; [|reflexivity].
    apply IH; assumption.
Qed.

End Prefixes.

(** ** The per-file pipeline *)

Section Engine.

Context {tc : GoToolchain} (h : Host).


Lemma with_fs_twice (w : World) (a b : gmap string FileNode) :
  with_fs (with_fs w a) b = with_fs w b.
Proof. reflexivity. Qed.

Lemma tempName_fresh files d pattern attempt fuel nm :
  tempName h files d pattern attempt fuel = Some nm -> files !! nm = None.
Proof.
  revert attempt. induction fuel as [|fuel IH]; intros attempt; simpl; [discriminate|].
  destruct (files !! filepath_Join d (pattern +:+ nextRandom h attempt)) eqn:E.
  - apply IH.
  - intros [= <-]. exact E.
Qed.

(** Reading and parsing never change the world. *)
Lemma load_world path w r w' : load h path w = (r, w') -> w' = w.
Proof.
  unfold load, try, pure, os_Open, File_Stat, ioutil_ReadAll, parser_ParseFile.
  repeat (case_inner; simpl); intros [= _ <-]; reflexivity.
Qed.

Lemma load_inv path w l w' :
  load h path w = (inr l, w') ->
  exists node, fs w !! path = Some node /\ src l = Data node
               /\ perm l = Perm (Mode node) /\ ParseFile (Data node) = inr (file l).
Proof.
  unfold load, try, pure, os_Open, File_Stat, ioutil_ReadAll, parser_ParseFile.
  destruct (failure (faults h (SysOpen path))); [discriminate|].
  destruct (fs w !! path) as [node|] eqn:E; [|discriminate].
  destruct (failure (faults h (SysStat path))); [discriminate|]. rewrite E.
  destruct (failure (faults h (SysReadAll path))); [discriminate|]. rewrite E.
  destruct (failure (faults h (SysReadFile path))); [discriminate|]. rewrite E.
  destruct (ParseFile (Data node)) as [e|f] eqn:P; [discriminate|].
  intros [= <- _]. exists node. simpl. auto.
Qed.

Lemma load_ok path w node f :
  quiet h -> fs w !! path = Some node -> ParseFile (Data node) = inr f ->
  load h path w = (inr {| perm := Perm (Mode node); src := Data node; file := f |}, w).
Proof.
  intros Q E P.
  unfold load, try, pure, os_Open, File_Stat, ioutil_ReadAll, parser_ParseFile.
  repeat (first [rewrite Q | rewrite E | rewrite P]; simpl). reflexivity.
Qed.

(** A backup that succeeds is a new file holding [data]. *)
Lemma backupFile_ok_inv filename data perm w backname w1 :
  backupFile h filename data perm w = ((backname, None), w1) ->
  fs w !! backname = None
  /\ w1 = with_fs w (<[backname := {| Mode := backupMode h perm; Data := data |}]> (fs w)).
Proof.
  unfold backupFile, bind, ret, ioutil_TempFile, backupMode.
  destruct (failure (faults h (SysTempFile _ _))); [discriminate|].
  destruct (tempName h (fs w) _ _ 0 tempAttempts) as [nm|] eqn:T; [|discriminate].
  apply tempName_fresh in T.
  destruct (chmodSupported h).
  - unfold File_Chmod, File_Write, File_Close, os_Remove. simpl.
    destruct (failure (faults h (SysChmod nm))); simpl.
    { destruct (failure (faults h (SysRemove nm))); simpl.
      - discriminate.
      - rewrite lookup_insert_eq. discriminate. }
    rewrite lookup_insert_eq. simpl. rewrite lookup_insert_eq.
    destruct (faults h (SysWrite nm)); simpl; try discriminate.
    destruct (failure (faults h (SysClose nm))); [discriminate|].
    intros [= <- <-]. split; [exact T|].
    unfold with_fs; simpl. rewrite !insert_insert_eq. reflexivity.
  - unfold File_Write, File_Close. simpl. rewrite lookup_insert_eq.
    destruct (faults h (SysWrite nm)); simpl; try discriminate.
    destruct (failure (faults h (SysClose nm))); [discriminate|].
    intros [= <- <-]. split; [exact T|].
    unfold with_fs; simpl. rewrite !insert_insert_eq. reflexivity.
Qed.

(** Whatever happens to the backup, the files that were there before keep
    their mode and content, and nothing is logged. *)
Lemma backupFile_frame filename data perm w res w1 :
  backupFile h filename data perm w = (res, w1) ->
  stderr w1 = stderr w /\ replaceRules w1 = replaceRules w
  /\ forall p, is_Some (fs w !! p) -> fs w1 !! p = fs w !! p.
Proof.
  unfold backupFile, bind, ret, ioutil_TempFile.
  destruct (failure (faults h (SysTempFile _ _))).
  { intros [= _ <-]. auto. }
  destruct (tempName h (fs w) _ _ 0 tempAttempts) as [nm|] eqn:T.
  2:{ intros [= _ <-]. auto. }
  apply tempName_fresh in T.
  assert (Hne : forall p, is_Some (fs w !! p) -> nm <> p).
  { intros p [x Hx] ->. congruence. }
  unfold File_Chmod, File_Write, File_Close, os_Remove.
  destruct (chmodSupported h); simpl;
    repeat (case_inner; simpl);
    intros [= _ <-]; simpl; (split; [reflexivity|]); (split; [reflexivity|]);
    intros p Hp; specialize (Hne p Hp);
    rewrite ?lookup_delete_ne, ?lookup_insert_ne by assumption; reflexivity.
Qed.

(** On a quiet host the backup is written in full. *)
Lemma backupFile_quiet path data perm w backname :
  quiet h -> backupName h (fs w) path = Some backname ->
  backupFile h (path +:+ ".") data perm w
  = ((backname, None),
     with_fs w (<[backname := {| Mode := backupMode h perm; Data := data |}]> (fs w))).
Proof.
  intros Q T. unfold backupName in T.
  unfold backupFile, bind, ret, ioutil_TempFile, backupMode.
  rewrite Q. simpl. rewrite T.
  unfold File_Chmod, File_Write, File_Close.
  destruct (chmodSupported h); simpl;
    repeat (first [rewrite Q | rewrite lookup_insert_eq]; simpl);
    unfold with_fs; simpl; rewrite !insert_insert_eq; reflexivity.
Qed.

(** A commit that reports no error has replaced the content of the target
    and nothing else. *)
Lemma commit_ok_inv path data bs perm w w' node :
  commit h path data bs perm w = (inr tt, w') ->
  fs w !! path = Some node ->
  w' = with_fs w (<[path := {| Mode := Mode node; Data := bs |}]> (fs w)).
Proof.
  intros C E. unfold commit, bind, ret in C.
  destruct (backupFile h (path +:+ ".") data perm w) as [[bn [e|]] w1] eqn:B;
    [discriminate|].
  apply backupFile_ok_inv in B as [Hfresh ->].
  assert (Hne : bn <> path) by (intros ->; congruence).
  unfold ioutil_WriteFile, os_Remove in C. simpl in C.
  rewrite lookup_insert_ne, E in C by assumption.
  destruct (faults h (SysWriteFile path)); simpl in C.
  2:{ destruct (os_Rename h bn path _); discriminate. }
  2:{ destruct (os_Rename h bn path _); discriminate. }
  destruct (failure (faults h (SysRemove bn))); [discriminate|].
  rewrite lookup_insert_ne, lookup_insert_eq in C by congruence.
  injection C as <-. unfold with_fs; simpl. f_equal.
  rewrite delete_insert_ne by congruence.
  rewrite delete_insert_id by assumption. reflexivity.
Qed.

Lemma commit_quiet path data bs perm w node backname :
  quiet h -> fs w !! path = Some node ->
  backupName h (fs w) path = Some backname ->
  commit h path data bs perm w
  = (inr tt, with_fs w (<[path := {| Mode := Mode node; Data := bs |}]> (fs w))).
Proof.
  intros Q E T.
  assert (Hfresh := tempName_fresh _ _ _ _ _ _ T).
  assert (Hne : backname <> path) by (intros ->; congruence).
  unfold commit, bind, ret. rewrite (backupFile_quiet _ _ _ _ _ Q T).
  unfold ioutil_WriteFile, os_Remove. simpl.
  rewrite lookup_insert_ne, E by assumption.
  rewrite !Q. simpl.
  rewrite lookup_insert_ne, lookup_insert_eq by congruence.
  unfold with_fs; simpl. do 2 f_equal.
  rewrite delete_insert_ne by congruence.
  rewrite delete_insert_id by assumption. reflexivity.
Qed.

(** The run of [rewriteImport] on a quiet host for a file that parses,
    renders and finds a backup name. *)
Lemma rewriteImport_quiet path w node f bs backname :
  quiet h -> fs w !! path = Some node ->
  ParseFile (Data node) = inr f ->
  render (replaceRules w) f = inr bs ->
  backupName h (fs w) path = Some backname ->
  rewriteImport h path w
  = (None, with_fs w (<[path := {| Mode := Mode node; Data := bs |}]> (fs w))).
Proof.
  intros Q E P R T.
  unfold rewriteImport, rewriteImport_errx, bind, try, pure, ret.
  rewrite (load_ok _ _ _ _ Q E P). simpl. rewrite R.
  rewrite (commit_quiet _ _ _ _ _ _ _ Q E T). reflexivity.
Qed.

(** A run that stops before the commit leaves the files alone. *)
Lemma rewriteImport_render_error path w l w0 e :
  load h path w = (inr l, w0) ->
  render (replaceRules w) (file l) = inl e ->
  rewriteImport h path w = (None, log_line (diagnostic path e) w).
Proof.
  intros L R. assert (w0 = w) as -> by exact (load_world _ _ _ _ L).
  unfold rewriteImport, rewriteImport_errx, bind, try, pure, ret.
  rewrite L. simpl. rewrite R. reflexivity.
Qed.

End Engine.

(** ** The rule map during a run *)

Section Rules.

Context {tc : GoToolchain} (h : Host).

Lemma collectReplacers_empty (groups : list (list ImportSpec)) :
  collectReplacers ∅ groups = [].
Proof.
  unfold collectReplacers. rewrite map_to_list_empty.
  induction groups as [|g groups IH]; [reflexivity|].
  simpl. rewrite IH, app_nil_r.
  induction g as [|imp g IHg]; [reflexivity|exact IHg].
Qed.

Lemma backupFile_rules filename data perm w :
  replaceRules (snd (backupFile h filename data perm w)) = replaceRules w.
Proof.
  destruct (backupFile h filename data perm w) as [res w1] eqn:B.
  apply backupFile_frame in B. simpl. tauto.
Qed.

Lemma commit_rules path data bs perm w :
  replaceRules (snd (commit h path data bs perm w)) = replaceRules w.
Proof.
  unfold commit, bind, ret.
  pose proof (backupFile_rules (path +:+ ".") data perm w) as B.
  destruct (backupFile h (path +:+ ".") data perm w) as [[bn [e|]] w1];
    simpl in B; [exact B|].
  rewrite <- B.
  unfold ioutil_WriteFile, os_Rename, os_Remove.
  repeat (case_inner; simpl); reflexivity.
Qed.

Lemma rewriteImport_rules path w :
  replaceRules (snd (rewriteImport h path w)) = replaceRules w.
Proof.
  unfold rewriteImport, rewriteImport_errx, bind, try, pure, ret.
  destruct (load h path w) as [[e|l] w0] eqn:L;
    apply load_world in L; subst w0; simpl; [reflexivity|].
  destruct (render (replaceRules w) (file l)) as [e|bs]; simpl; [reflexivity|].
  pose proof (commit_rules path (src l) bs (perm l) w) as C.
  destruct (commit h path (src l) bs (perm l) w) as [[e|u] w1]; simpl in *; exact C.
Qed.

Lemma rewriteImport_nil path w : fst (rewriteImport h path w) = None.
Proof.
  unfold rewriteImport, bind, ret.
  destruct (rewriteImport_errx h path w) as [[e|u] w1]; reflexivity.
Qed.

Lemma handle_rules path info errx w :
  replaceRules (snd (handle h path info errx w)) = replaceRules w.
Proof.
  unfold handle, bind, ret. destruct errx; [reflexivity|].
  repeat (case_inner; simpl); try reflexivity;
    match goal with
    | H : rewriteImport h path w = (_, ?w1) |- replaceRules ?w1 = _ =>
        change w1 with (snd (@pair (option error) World None w1));
        rewrite <- (rewriteImport_rules path w), H; reflexivity
    end.
Qed.

Lemma Walk_rules entries w :
  replaceRules (snd (Walk entries (handle h) w)) = replaceRules w.
Proof.
  revert w. induction entries as [|e entries IH]; intros w; [reflexivity|].
  simpl. unfold bind, ret.
  pose proof (handle_rules (wpath e) (winfo e) (werr e) w) as H.
  destruct (handle h (wpath e) (winfo e) (werr e) w) as [[err|] w1]; simpl in *.
  - exact H.
  - rewrite IH. exact H.
Qed.

Lemma main_rules flags w :
  replaceRules (snd (main h flags w)) = replaceRules w.
Proof.
  unfold main, exitOnErr, bind, ret.
  destruct (String.eqb (dir flags) EmptyString); [reflexivity|].
  destruct (String.eqb (source flags) EmptyString || String.eqb (dest flags) EmptyString);
    [reflexivity|].
  pose proof (Walk_rules (tree h (dir flags)) w) as H.
  destruct (Walk (tree h (dir flags)) (handle h) w) as [[err|] w1]; exact H.
Qed.

(** C2.  In a run of [main] the rule map is empty after every callback of
    the walk, whatever the flags: with that map no import of any file yields
    a pending substitution, the substitution loop returns the tree it was
    given, and the map is still empty when [main] ends. *)
Theorem replaceRules_stays_empty (flags : Flags) (files : gmap string FileNode) :
  (forall k : nat,
      let wk := snd (Walk (take k (tree h (dir flags))) (handle h) (boot files)) in
      replaceRules wk = ∅
      /\ forall f : File,
          collectReplacers (replaceRules wk) (Imports f) = []
          /\ applyReplacers f (collectReplacers (replaceRules wk) (Imports f)) = inr f)
  /\ replaceRules (snd (main h flags (boot files))) = ∅.
Proof.
  split.
  - intros k wk. assert (E : replaceRules wk = ∅) by apply Walk_rules.
    split; [exact E|]. intros f. rewrite E, collectReplacers_empty.
    split; reflexivity.
  - apply main_rules.
Qed.

End Rules.

(** ** Errors: what is logged and what is fatal *)

Section Errors.

Context {tc : GoToolchain} (h : Host).



Lemma handle_clean_nil path info w : fst (handle h path info None w) = None.
Proof.
  unfold handle, bind, ret.
  repeat (case_inner; simpl); try reflexivity.
  pose proof (rewriteImport_nil h path w) as N.
  match goal with H : rewriteImport h path w = _ |- _ => rewrite H in N end.
  discriminate.
Qed.


Lemma handle_all_app pre post w :
  handle_all h (pre ++ post) w = handle_all h post (handle_all h pre w).
Proof. unfold handle_all. apply foldl_app. Qed.



Lemma main_valid flags w :
  dir flags <> EmptyString -> source flags <> EmptyString ->
  dest flags <> EmptyString ->
  main h flags w
  = (r <- Walk (tree h (dir flags)) (handle h) ;;
     match r with
     | Some err => exitOnErr err
     | None => ret 0
     end) w.
Proof.
  intros Hd Hs Hr. unfold main.
  apply String.eqb_neq in Hd, Hs, Hr. rewrite Hd, Hs, Hr. reflexivity.
Qed.









End Errors.

(** ** File selection *)

Section Selection.

Context {tc : GoToolchain} (h : Host).

Lemma selected_spec (path : string) (info : FileInfo) :
  selected path info = true
  <-> IsDir info = false
      /\ strings.Contains path "vendor" = false
      /\ strings.HasSuffix (FileName info) ".go" = true
      /\ Forall (fun skip => strings.HasSuffix (FileName info) skip = false)
           codeSuffixSkipped.
Proof.
  unfold selected. rewrite !andb_true_iff, !negb_true_iff, forallb_forall.
  rewrite Forall_forall.
  split.
  - intros [[[A B] C] D]. repeat split; try assumption.
    intros skip Hs. apply negb_true_iff, D, list_elem_of_In, Hs.
  - intros (A & B & C & D). repeat split; try assumption.
    intros skip Hs. apply negb_true_iff, D, list_elem_of_In, Hs.
Qed.

Lemma handle_clean (path : string) (info : FileInfo) (w : World) :
  handle h path info None w
  = (if selected path info then rewriteImport h path w else (None, w)).
Proof.
  unfold handle, selected, bind, ret.
  destruct (IsDir info); [reflexivity|].
  destruct (strings.Contains path "vendor"); [reflexivity|].
  destruct (strings.HasSuffix (FileName info) ".go"); [|reflexivity].
  simpl.
  repeat (destruct (strings.HasSuffix (FileName info) _); [reflexivity|]).
  simpl.
  pose proof (rewriteImport_nil h path w) as N.
  destruct (rewriteImport h path w) as [[e|] w1]; [discriminate|reflexivity].
Qed.

(** C4, amended.  [handle] passes an entry that the traversal delivers
    without error to [rewriteImport] exactly when it is not a directory, its
    path does not contain the text vendor anywhere, its name ends in .go and
    its name ends in none of pb.go, pb.gopherjs.go, stateGen.go and
    reactGen.go; every other entry is skipped without effect. *)
Theorem handle_selects (path : string) (info : FileInfo) (w : World) :
  handle h path info None w
  = (if selected path info then rewriteImport h path w else (None, w))
  /\ (selected path info = true
      <-> IsDir info = false
          /\ strings.Contains path "vendor" = false
          /\ strings.HasSuffix (FileName info) ".go" = true
          /\ Forall (fun skip => strings.HasSuffix (FileName info) skip = false)
               codeSuffixSkipped).
Proof. split; [apply handle_clean|apply selected_spec]. Qed.

End Selection.

(** C4, as stated, fails: lib/vendoring.go is a regular Go file outside any
    vendor directory and without a generated-code suffix, yet [handle]
    skips it, although [rewriteImport] would have rewritten it. *)
Lemma vendor_text_is_not_a_segment :
  let path := "lib/vendoring.go" in
  let info := Demo.regular "vendoring.go" in
  let w := boot (Demo.disk path Demo.loose_src) in
  Spec.candidate path info = true
  /\ handle (tc := Ref.toolchain) Demo.calm path info None w = (None, w)
  /\ fs (snd (rewriteImport (tc := Ref.toolchain) Demo.calm path w)) !! path
     = Some {| Mode := 420; Data := Demo.loose_fmt |}
  /\ Demo.loose_fmt <> Demo.loose_src.
Proof.
  repeat split; try (vm_compute; reflexivity).
  vm_compute. discriminate.
Qed.

(** ** Rewriting one file *)

Section Rewrite.

Context {tc : GoToolchain} (h : Host).






(** C9.  A run of [rewriteImport] that ends without error leaves the file
    with the permission bits it had. *)
Theorem permissions_preserved
    (path : string) (w w' : World) (node : FileNode) :
  rewriteImport_errx h path w = (inr tt, w') ->
  fs w !! path = Some node ->
  exists node', fs w' !! path = Some node'
                /\ Perm (Mode node') = Perm (Mode node).
Proof.
  intros R E. unfold rewriteImport_errx, bind, try, pure, ret in R.
  destruct (load h path w) as [[e|l] w0] eqn:L; [discriminate|].
  apply load_world in L. subst w0. simpl in R.
  destruct (render (replaceRules w) (file l)) as [e|bs]; [discriminate|].
  apply (commit_ok_inv _ _ _ _ _ _ _ node) in R; [|exact E]. subst w'.
  eexists. simpl. rewrite lookup_insert_eq. split; reflexivity.
Qed.

(** C5, amended.  When the backup has been created and the overwrite of
    the target fails, and the rename of the backup onto the target succeeds,
    the target holds the content it had before the run and the backup name
    is gone.  (The program ignores the result of that rename.) *)
Theorem failed_overwrite_is_restored
    (path : string) (w w0 w1 : World) (l : Loaded) (node : FileNode)
    (bs backname : string) (e : error) :
  fs w !! path = Some node ->
  load h path w = (inr l, w0) ->
  render (replaceRules w) (file l) = inr bs ->
  backupFile h (path +:+ ".") (src l) (perm l) w = ((backname, None), w1) ->
  failure (faults h (SysWriteFile path)) = Some e ->
  faults h (SysRename backname path) = Ok ->
  let w' := snd (rewriteImport h path w) in
  fs w' !! path
  = Some {| Mode := backupMode h (Perm (Mode node)); Data := Data node |}
  /\ fs w' !! backname = None
  /\ stderr w' = stderr w ++ [diagnostic path e].
Proof.
  intros E L R B Wf Rn w'. subst w'.
  destruct (load_inv h _ _ _ _ L) as (node0 & E0 & Hs & Hp & _).
  rewrite E in E0. injection E0 as <-.
  assert (w0 = w) as -> by exact (load_world h _ _ _ _ L).
  unfold rewriteImport, rewriteImport_errx, bind, try, pure, ret.
  rewrite L. simpl. rewrite R. unfold commit, bind, ret. rewrite B.
  apply backupFile_ok_inv in B as [Hfresh ->].
  assert (Hne : backname <> path) by (intros ->; congruence).
  unfold ioutil_WriteFile, os_Rename. simpl.
  rewrite Rn. simpl.
  destruct (faults h (SysWriteFile path)) as [|e1|e1 n]; [discriminate| |];
    simpl in Wf; injection Wf as ->; simpl.
  - rewrite lookup_insert_eq. simpl.
    rewrite lookup_insert_eq, lookup_insert_ne, lookup_delete_eq by congruence.
    rewrite Hs, Hp. auto.
  - rewrite lookup_insert_ne, lookup_insert_eq by congruence. simpl.
    rewrite lookup_insert_eq, lookup_insert_ne, lookup_delete_eq by congruence.
    rewrite Hs, Hp. auto.
Qed.

(** C10.  Once the temp file exists and has its mode, a failing write of
    the original bytes, or a failing close, makes [backupFile] return with
    the temp file still on disk; [rewriteImport] then logs the error and
    returns, so the file stays next to the untouched target.  Only when
    the chmod fails does [backupFile] remove the temp file. *)
Theorem failed_backup_is_left_behind
    (path : string) (w w0 : World) (l : Loaded) (bs backname : string) :
  load h path w = (inr l, w0) ->
  render (replaceRules w) (file l) = inr bs ->
  faults h (SysTempFile (filepath_Dir (path +:+ ".")) (filepath_Base (path +:+ "."))) = Ok ->
  backupName h (fs w) path = Some backname ->
  let w' := snd (rewriteImport h path w) in
  fs w !! backname = None
  /\ (forall e,
         (chmodSupported h = true -> faults h (SysChmod backname) = Ok) ->
         failure (faults h (SysWrite backname)) = Some e
         \/ (faults h (SysWrite backname) = Ok
             /\ failure (faults h (SysClose backname)) = Some e) ->
         is_Some (fs w' !! backname)
         /\ fs w' !! path = fs w !! path
         /\ stderr w' = stderr w ++ [diagnostic path e])
  /\ (forall e,
         chmodSupported h = true ->
         failure (faults h (SysChmod backname)) = Some e ->
         faults h (SysRemove backname) = Ok ->
         fs w' = fs w
         /\ stderr w' = stderr w ++ [diagnostic path e]).
Proof.
  intros L R Tf T w'. subst w'.
  assert (w0 = w) as -> by exact (load_world h _ _ _ _ L).
  destruct (load_inv h _ _ _ _ L) as (node & E & _).
  assert (Hfresh := tempName_fresh _ _ _ _ _ _ _ T).
  assert (Hne : backname <> path) by (intros ->; congruence).
  unfold backupName in T.
  split; [exact Hfresh|].
  unfold rewriteImport, rewriteImport_errx, bind, try, pure, ret.
  rewrite L. simpl. rewrite R.
  unfold commit, backupFile, bind, ret, ioutil_TempFile.
  rewrite Tf. simpl. rewrite T.
  unfold File_Chmod, File_Write, File_Close, os_Remove.
  split.
  - intros e Hc Hw.
    assert (Hc' : chmodSupported h = true -> failure (faults h (SysChmod backname)) = None).
    { intros X. rewrite (Hc X). reflexivity. }
    destruct (chmodSupported h); simpl.
    + rewrite (Hc' eq_refl). simpl. rewrite !lookup_insert_eq. simpl.
      rewrite lookup_insert_eq.
      destruct Hw as [Hw|[Hw Hcl]].
      * destruct (faults h (SysWrite backname)) as [|e1|e1 n]; [discriminate| |];
          simpl in Hw; injection Hw as ->; simpl;
          rewrite ?lookup_insert_eq, ?lookup_insert_ne by congruence; auto.
      * rewrite Hw. simpl. rewrite Hcl. simpl.
        rewrite ?lookup_insert_eq, ?lookup_insert_ne by congruence; auto.
    + rewrite !lookup_insert_eq.
      destruct Hw as [Hw|[Hw Hcl]].
      * destruct (faults h (SysWrite backname)) as [|e1|e1 n]; [discriminate| |];
          simpl in Hw; injection Hw as ->; simpl;
          rewrite ?lookup_insert_eq, ?lookup_insert_ne by congruence; auto.
      * rewrite Hw. simpl. rewrite Hcl. simpl.
        rewrite ?lookup_insert_eq, ?lookup_insert_ne by congruence; auto.
  - intros e Hs Hc Hr. rewrite Hs. simpl. rewrite Hc. simpl.
    rewrite Hr. simpl. rewrite lookup_insert_eq. simpl.
    rewrite delete_insert_id by assumption. auto.
Qed.

End Rewrite.

(** ** The rule matcher with one rule *)

Section Matcher.

Context {tc : GoToolchain}.

Lemma matchRules_single (old new : string) (imp : ImportSpec) :
  matchRules [(old, new)] imp
  = if strings.HasPrefix (importPath imp) old
    then [ {| name := importName imp;
              oldPath := importPath imp;
              newPath := new +:+ strings.TrimPrefix (importPath imp) old |} ]
    else [].
Proof.
  unfold matchRules. simpl.
  destruct (strings.HasPrefix (importPath imp) old); reflexivity.
Qed.

(** With the rule (old, new) an import of old followed by rest becomes the
    pending substitution to new followed by rest, under the same name. *)
Lemma matchRules_prefix (old new rest : string) (imp : ImportSpec) :
  importPath imp = old +:+ rest ->
  matchRules [(old, new)] imp
  = [ {| name := importName imp; oldPath := old +:+ rest; newPath := new +:+ rest |} ].
Proof.
  intros E. rewrite matchRules_single, E, HasPrefix_app, TrimPrefix_app. reflexivity.
Qed.

Lemma collectReplacers_single_in (old new : string)
    (groups : list (list ImportSpec)) (r : replacer) :
  In r (collectReplacers {[ old := new ]} groups) ->
  exists imp, In imp (concat groups)
              /\ strings.HasPrefix (importPath imp) old = true
              /\ newPath r = new +:+ strings.TrimPrefix (importPath imp) old.
Proof.
  unfold collectReplacers. rewrite map_to_list_singleton.
  intros H. apply in_flat_map in H as (g & Hg & H).
  apply in_flat_map in H as (imp & Himp & H).
  rewrite matchRules_single in H.
  destruct (strings.HasPrefix (importPath imp) old) eqn:P; [|destruct H].
  destruct H as [<-|[]]. exists imp. repeat split; [|exact P].
  apply in_concat. exists g. split; assumption.
Qed.

Lemma collectReplacers_single_none (old new : string)
    (groups : list (list ImportSpec)) :
  (forall imp, In imp (concat groups) ->
               strings.HasPrefix (importPath imp) old = false) ->
  collectReplacers {[ old := new ]} groups = [].
Proof.
  unfold collectReplacers. rewrite map_to_list_singleton.
  induction groups as [|g groups IH]; intros H; [reflexivity|].
  cbn [flat_map]. rewrite IH.
  2:{ intros imp Hi. apply H. simpl. apply in_or_app. right. exact Hi. }
  rewrite app_nil_r.
  assert (Hg : forall imp, In imp g -> strings.HasPrefix (importPath imp) old = false).
  { intros imp Hi. apply H. simpl. apply in_or_app. left. exact Hi. }
  clear H IH. induction g as [|imp g IHg]; [reflexivity|].
  cbn [flat_map]. rewrite matchRules_single, (Hg imp) by (left; reflexivity).
  cbn [app]. apply IHg. intros i Hi. apply Hg. right. exact Hi.
Qed.

End Matcher.

(** ** Running twice *)

Section Twice.

Context {tc : GoToolchain} (h : Host).

(** *** One file on a host without failing calls *)

Lemma load_quiet path w :
  quiet h ->
  load h path w
  = (match fs w !! path with
     | None => inl ("open " +:+ path +:+ ": no such file or directory")
     | Some node =>
         match ParseFile (Data node) with
         | inl e => inl e
         | inr f => inr {| perm := Perm (Mode node); src := Data node; file := f |}
         end
     end, w).
Proof.
  intros Q.
  unfold load, try, pure, os_Open, File_Stat, ioutil_ReadAll, parser_ParseFile.
  rewrite Q. simpl.
  destruct (fs w !! path) as [node|] eqn:E; [|reflexivity].
  rewrite Q. simpl. rewrite E, Q. simpl. rewrite E, Q. simpl. rewrite E.
  destruct (ParseFile (Data node)); reflexivity.
Qed.

Lemma commit_quiet_noname path data bs perm w :
  quiet h -> backupName h (fs w) path = None ->
  commit h path data bs perm w = (inl "file exists", w).
Proof.
  intros Q T. unfold backupName in T.
  unfold commit, backupFile, bind, ret, ioutil_TempFile.
  rewrite Q. simpl. rewrite T. reflexivity.
Qed.

Lemma rewriteImport_quiet_fs path w :
  quiet h ->
  fs (snd (rewriteImport h path w)) = settle_file h (replaceRules w) path (fs w).
Proof.
  intros Q. unfold settle_file, rewritten.
  unfold rewriteImport, rewriteImport_errx, bind, try, pure, ret.
  rewrite (load_quiet _ _ Q).
  destruct (fs w !! path) as [node|] eqn:E; [|reflexivity].
  destruct (ParseFile (Data node)) as [e|f]; [reflexivity|]. simpl.
  destruct (render (replaceRules w) f) as [e|bs]; [reflexivity|].
  destruct (backupName h (fs w) path) as [bn|] eqn:T.
  - rewrite (commit_quiet _ _ _ _ _ _ _ _ Q E T). reflexivity.
  - rewrite (commit_quiet_noname _ _ _ _ _ Q T). reflexivity.
Qed.

Lemma handle_quiet_fs e w :
  quiet h ->
  fs (snd (handle h (wpath e) (winfo e) (werr e) w))
  = settle_entry h (replaceRules w) (fs w) e.
Proof.
  intros Q. unfold settle_entry, visited.
  destruct (werr e) as [err|]; [reflexivity|].
  rewrite handle_clean.
  destruct (selected (wpath e) (winfo e)); [|reflexivity].
  apply rewriteImport_quiet_fs, Q.
Qed.

Lemma handle_all_quiet_fs entries w :
  quiet h ->
  fs (handle_all h entries w) = settle_all h (replaceRules w) entries (fs w).
Proof.
  intros Q. revert w. induction entries as [|e entries IH]; intros w; [reflexivity|].
  unfold handle_all, settle_all in *. cbn [foldl].
  rewrite IH, handle_rules, (handle_quiet_fs _ _ Q). reflexivity.
Qed.

Lemma Walk_walked entries w :
  snd (Walk entries (handle h) w) = handle_all h (walked entries) w.
Proof.
  revert w. induction entries as [|e entries IH]; intros w; [reflexivity|].
  cbn [Walk walked]. unfold bind, ret.
  destruct (werr e) as [err|] eqn:E.
  - unfold handle. reflexivity.
  - pose proof (handle_clean_nil h (wpath e) (winfo e) w) as N.
    unfold handle_all. cbn [foldl]. rewrite E.
    destruct (handle h (wpath e) (winfo e) None w) as [[err|] w1];
      [discriminate|].
    apply IH.
Qed.

Lemma walked_In entries e : In e (walked entries) -> In e entries.
Proof.
  induction entries as [|x entries IH]; [intros []|].
  cbn [walked]. destruct (werr x); [intros []|].
  intros [<-|H]; [left; reflexivity|right; apply IH, H].
Qed.

(** The files [main] leaves behind. *)
Lemma main_quiet_fs flags :
  quiet h ->
  exists b : bool, forall w,
    fs (snd (main h flags w))
    = if b then settle_all h (replaceRules w) (walked (tree h (dir flags))) (fs w)
      else fs w.
Proof.
  intros Q. unfold main, exitOnErr, bind, ret.
  destruct (String.eqb (dir flags) EmptyString); [exists false; reflexivity|].
  destruct (String.eqb (source flags) EmptyString || String.eqb (dest flags) EmptyString);
    [exists false; reflexivity|].
  exists true. intros w.
  pose proof (Walk_walked (tree h (dir flags)) w) as W.
  destruct (Walk (tree h (dir flags)) (handle h) w) as [[err|] w1];
    simpl in *; subst w1; apply handle_all_quiet_fs, Q.
Qed.

(** *** The files of a whole walk *)

Lemma tempName_names (m1 m2 : gmap string FileNode) d pattern attempt fuel :
  (forall k, m1 !! k = None <-> m2 !! k = None) ->
  tempName h m1 d pattern attempt fuel = tempName h m2 d pattern attempt fuel.
Proof.
  intros N. revert attempt. induction fuel as [|fuel IH]; intros attempt; [reflexivity|].
  cbn [tempName].
  destruct (m1 !! filepath_Join d (pattern +:+ nextRandom h attempt)) eqn:E1;
    destruct (m2 !! filepath_Join d (pattern +:+ nextRandom h attempt)) eqn:E2.
  - apply IH.
  - apply N in E2. congruence.
  - apply N in E1. congruence.
  - reflexivity.
Qed.

Lemma settle_file_names rules p (m : gmap string FileNode) k :
  settle_file h rules p m !! k = None <-> m !! k = None.
Proof.
  unfold settle_file. destruct (m !! p) as [node|] eqn:E; [|reflexivity].
  destruct (rewritten rules (Data node)); [reflexivity|].
  destruct (backupName h m p); [|reflexivity].
  destruct (decide (p = k)) as [<-|Hne].
  - rewrite lookup_insert_eq, E. split; discriminate.
  - rewrite lookup_insert_ne by assumption. reflexivity.
Qed.

Lemma settle_file_other rules p q (m : gmap string FileNode) :
  p <> q -> settle_file h rules p m !! q = m !! q.
Proof.
  intros Hne. unfold settle_file. destruct (m !! p) as [node|]; [|reflexivity].
  destruct (rewritten rules (Data node)); [reflexivity|].
  destruct (backupName h m p); [|reflexivity].
  apply lookup_insert_ne, Hne.
Qed.

Lemma backupName_names (m1 m2 : gmap string FileNode) p :
  (forall k, m1 !! k = None <-> m2 !! k = None) ->
  backupName h m1 p = backupName h m2 p.
Proof. intros N. apply tempName_names, N. Qed.

Lemma inert_fixed rules p (m : gmap string FileNode) :
  inert h rules p m -> settle_file h rules p m = m.
Proof.
  unfold inert, settle_file. destruct (m !! p) as [node|] eqn:E; [|reflexivity].
  destruct (rewritten rules (Data node)); [reflexivity|].
  destruct (backupName h m p); [|reflexivity].
  intros ->. apply insert_id. rewrite E. destruct node; reflexivity.
Qed.

Lemma settle_inert rules p (m : gmap string FileNode) :
  (forall node, m !! p = Some node -> settles rules (Data node)) ->
  inert h rules p (settle_file h rules p m).
Proof.
  intros S. unfold inert.
  rewrite (backupName_names _ m p) by apply settle_file_names.
  unfold settle_file. destruct (m !! p) as [node|] eqn:E; [|rewrite E; exact I].
  destruct (rewritten rules (Data node)) as [e|bs] eqn:R.
  { rewrite E, R. exact I. }
  destruct (backupName h m p) as [bn|] eqn:T.
  2:{ rewrite E, R. exact I. }
  rewrite lookup_insert_eq. cbn [Data].
  rewrite (S node eq_refl bs R). reflexivity.
Qed.

Lemma inert_step rules p q (m : gmap string FileNode) :
  inert h rules p m -> inert h rules p (settle_file h rules q m).
Proof.
  intros Hi. destruct (decide (q = p)) as [->|Hne].
  - rewrite (inert_fixed _ _ _ Hi). exact Hi.
  - unfold inert in *.
    rewrite (backupName_names _ m p) by apply settle_file_names.
    rewrite settle_file_other by assumption. exact Hi.
Qed.

Lemma inert_entry rules p (m : gmap string FileNode) e :
  inert h rules p m -> inert h rules p (settle_entry h rules m e).
Proof. intros Hi. unfold settle_entry. destruct (visited e); [apply inert_step|]; exact Hi. Qed.

Lemma inert_all rules p entries (m : gmap string FileNode) :
  inert h rules p m -> inert h rules p (settle_all h rules entries m).
Proof.
  revert m. induction entries as [|e entries IH]; intros m Hi; [exact Hi|].
  unfold settle_all. cbn [foldl]. apply IH, inert_entry, Hi.
Qed.

Lemma settles_output rules text bs :
  settles rules text -> rewritten rules text = inr bs -> settles rules bs.
Proof.
  intros S R bs' R'. pose proof (S bs R) as R2.
  rewrite R2 in R'. injection R' as <-. exact R2.
Qed.

Lemma settling_step rules entries q (m : gmap string FileNode) :
  (forall node, m !! q = Some node -> settles rules (Data node)) ->
  settling rules entries m -> settling rules entries (settle_file h rules q m).
Proof.
  intros Sq S e node Hin Hv. destruct (decide (q = wpath e)) as [->|Hne].
  - unfold settle_file. destruct (m !! wpath e) as [node0|] eqn:E.
    2:{ rewrite E. discriminate. }
    destruct (rewritten rules (Data node0)) as [err|bs] eqn:R.
    { rewrite E. intros [= <-]. apply (Sq _ eq_refl). }
    destruct (backupName h m (wpath e)).
    2:{ rewrite E. intros [= <-]. apply (Sq _ eq_refl). }
    rewrite lookup_insert_eq. intros [= <-]. cbn [Data].
    apply (settles_output _ _ _ (Sq _ eq_refl) R).
  - rewrite settle_file_other by assumption. apply S; assumption.
Qed.

Lemma settling_entry rules x entries (m : gmap string FileNode) :
  settling rules (x :: entries) m -> settling rules entries (settle_entry h rules m x).
Proof.
  intros S.
  assert (S' : settling rules entries m).
  { intros e node Hin. apply S. right. exact Hin. }
  unfold settle_entry. destruct (visited x) eqn:V; [|exact S'].
  apply settling_step; [|exact S'].
  intros node E. apply (S x node); [left; reflexivity|exact V|exact E].
Qed.

Lemma settle_all_inert rules entries (m : gmap string FileNode) :
  settling rules entries m ->
  forall e, In e entries -> visited e = true ->
            inert h rules (wpath e) (settle_all h rules entries m).
Proof.
  revert m. induction entries as [|x entries IH]; intros m S e Hin V; [destruct Hin|].
  unfold settle_all. cbn [foldl]. fold (settle_all h rules entries (settle_entry h rules m x)).
  destruct Hin as [->|Hin].
  - apply inert_all. unfold settle_entry. rewrite V. apply settle_inert.
    intros node E. apply (S e node); [left; reflexivity|exact V|exact E].
  - apply IH; [apply settling_entry, S|exact Hin|exact V].
Qed.

Lemma settle_all_fixed rules entries (m : gmap string FileNode) :
  (forall e, In e entries -> visited e = true -> inert h rules (wpath e) m) ->
  settle_all h rules entries m = m.
Proof.
  induction entries as [|x entries IH]; intros Hi; [reflexivity|].
  unfold settle_all. cbn [foldl]. fold (settle_all h rules entries (settle_entry h rules m x)).
  assert (Hx : settle_entry h rules m x = m).
  { unfold settle_entry. destruct (visited x) eqn:V; [|reflexivity].
    apply inert_fixed, Hi; [left; reflexivity|exact V]. }
  rewrite Hx. apply IH. intros e Hin. apply Hi. right. exact Hin.
Qed.

Lemma settle_all_twice rules entries (m : gmap string FileNode) :
  settling rules entries m ->
  settle_all h rules entries (settle_all h rules entries m)
  = settle_all h rules entries m.
Proof. intros S. apply settle_all_fixed, settle_all_inert, S. Qed.

(** Rewriting twice.  On a host without failing calls, if every file the
    walk visits holds a text whose rewritten form is left as it is by
    rewriting it again, then a second run of [main] leaves the files exactly
    as the first run left them.  Under a single rule (old, new) with neither
    prefix a prefix of the other, the new path of a pending substitution
    does not start with old. *)
Theorem run_twice_is_run_once (flags : Flags) (w : World) :
  quiet h ->
  settling (replaceRules w) (tree h (dir flags)) (fs w) ->
  fs (snd (main h flags (snd (main h flags w)))) = fs (snd (main h flags w))
  /\ forall old new,
       replaceRules w = {[ old := new ]} ->
       strings.HasPrefix old new = false ->
       strings.HasPrefix new old = false ->
       forall groups r,
         In r (collectReplacers (replaceRules w) groups) ->
         strings.HasPrefix (newPath r) old = false
         /\ forall imp, importPath imp = newPath r ->
                        collectReplacers (replaceRules w) [[imp]] = [].
Proof.
  intros Q S. split.
  - destruct (main_quiet_fs flags Q) as [b Hb].
    rewrite (Hb (snd (main h flags w))), main_rules, (Hb w).
    destruct b; [|reflexivity].
    apply settle_all_twice. intros e node Hin. apply S, walked_In, Hin.
  - intros old new Hr Hon Hno groups r Hin. rewrite Hr in *.
    apply collectReplacers_single_in in Hin as (i & _ & _ & ->).
    assert (Hp : strings.HasPrefix (new +:+ strings.TrimPrefix (importPath i) old) old
                 = false) by (apply HasPrefix_apart; assumption).
    split; [exact Hp|].
    intros imp E. apply collectReplacers_single_none.
    intros x [<-|[]]. rewrite E. exact Hp.
Qed.

End Twice.

(** ** The program on concrete files *)

Import Demo.

(** C1.  With -s github.com/foo/bar and -r example.com/baz, [main] leaves
    a.go importing github.com/foo/bar/sub as x: the rule map is never filled.
    The same run after a call of [initReplaceRules] writes the import of
    example.com/baz/sub as x. *)
Theorem scenario_import_is_not_rewritten :
  let w := boot (disk "a.go" aliased_src) in
  main (tc := Ref.toolchain) calm flags w = (0, w)
  /\ fs w !! "a.go" = Some {| Mode := 420; Data := aliased_src |}
  /\ fs (snd (main_with_rules calm flags w)) !! "a.go"
     = Some {| Mode := 420; Data := aliased_dst |}
  /\ aliased_src <> aliased_dst.
Proof.
  repeat split; try (vm_compute; reflexivity).
  vm_compute. discriminate.
Qed.


(** C5, as stated, fails: the backup a.go.0 is created, the overwrite of
    a.go fails after truncating it, and the rename that should restore it
    fails as well; a.go stays empty and a.go.0 stays on disk. *)
Lemma restore_can_fail :
  let hst := host write_and_rename_fail one_file in
  let w := boot (disk "a.go" aliased_src) in
  let w' := snd (rewriteImport (tc := Ref.toolchain) hst "a.go" w) in
  fst (backupFile hst "a.go." aliased_src 420 w) = ("a.go.0", None)
  /\ failure (faults hst (SysWriteFile "a.go")) = Some "no space left on device"
  /\ fs w' !! "a.go" = Some {| Mode := 420; Data := EmptyString |}
  /\ fs w' !! "a.go.0" = Some {| Mode := 420; Data := aliased_src |}
  /\ stderr w' = [diagnostic "a.go" "no space left on device"].
Proof. repeat split; vm_compute; reflexivity. Qed.

(** C7.  After a run of [main] with -s github.com/foo/bar and
    -r example.com/baz, a.go still imports a path that starts with the old
    prefix: the rule map is never filled, the first run substitutes nothing,
    and the second run meets the same import and leaves the same files.
    With the call of [initReplaceRules] made, the first run leaves no import
    that starts with the old prefix and the second run changes nothing. *)
Theorem old_prefix_survives_first_run :
  let starts_old text :=
    map (fun s => strings.HasPrefix (importPath (tc := Ref.toolchain) s) (source flags))
      (concat (Ref.imports (parsed text))) in
  let w := boot (disk "a.go" aliased_src) in
  let w1 := snd (main (tc := Ref.toolchain) calm flags w) in
  let v1 := snd (main_with_rules calm flags w) in
  fs w1 !! "a.go" = Some {| Mode := 420; Data := aliased_src |}
  /\ starts_old aliased_src = [true]
  /\ fs (snd (main (tc := Ref.toolchain) calm flags w1)) = fs w1
  /\ fs v1 !! "a.go" = Some {| Mode := 420; Data := aliased_dst |}
  /\ starts_old aliased_dst = [false]
  /\ fs (snd (main_with_rules calm flags v1)) = fs v1.
Proof. repeat split; vm_compute; reflexivity. Qed.


(** ** The theorems at work *)


(** The overwrite of a.go fails after truncating it; the rename puts the
    backup a.go.0 back in its place. *)
Lemma failed_overwrite_is_restored_witness :
  let hst := host write_fails one_file in
  let w := with_rules (boot (disk "a.go" aliased_src)) {[ source flags := dest flags ]} in
  let w' := snd (rewriteImport (tc := Ref.toolchain) hst "a.go" w) in
  fs w' !! "a.go" = Some {| Mode := 420; Data := aliased_src |}
  /\ fs w' !! "a.go.0" = None
  /\ stderr w' = [diagnostic "a.go" "no space left on device"].
Proof.
  intros hst w.
  apply (failed_overwrite_is_restored (tc := Ref.toolchain) hst "a.go" w w
           (with_fs w (<["a.go.0" := {| Mode := 420; Data := aliased_src |}]> (fs w)))
           (@Build_Loaded Ref.toolchain 420 aliased_src (parsed aliased_src))
           {| Mode := 420; Data := aliased_src |} aliased_dst "a.go.0"
           "no space left on device").
  - vm_compute; reflexivity.
  - vm_compute; reflexivity.
  - vm_compute; reflexivity.
  - vm_compute; reflexivity.
  - vm_compute; reflexivity.
  - vm_compute; reflexivity.
Defined.


(** a.go, mode 0644, is rewritten to import example.com/baz/sub and keeps its
    mode. *)
Lemma permissions_preserved_witness :
  let w := with_rules (boot (disk "a.go" aliased_src)) {[ source flags := dest flags ]} in
  let w' := snd (rewriteImport_errx (tc := Ref.toolchain) calm "a.go" w) in
  fs w' !! "a.go" = Some {| Mode := 420; Data := aliased_dst |}
  /\ exists node', fs w' !! "a.go" = Some node' /\ Perm (Mode node') = Perm 420.
Proof.
  intros w w'. split; [vm_compute; reflexivity|].
  apply (permissions_preserved (tc := Ref.toolchain) calm "a.go" w w'
           {| Mode := 420; Data := aliased_src |}).
  - vm_compute; reflexivity.
  - vm_compute; reflexivity.
Defined.

(** The write into the backup fails after nine bytes: a.go.0 stays behind
    with those nine bytes, a.go is untouched. *)
Lemma failed_backup_is_left_behind_witness :
  let hst := host backup_write_fails one_file in
  let w := boot (disk "a.go" aliased_src) in
  let w' := snd (rewriteImport (tc := Ref.toolchain) hst "a.go" w) in
  fs w' !! "a.go.0" = Some {| Mode := 420; Data := "package p" |}
  /\ is_Some (fs w' !! "a.go.0")
  /\ fs w' !! "a.go" = fs w !! "a.go"
  /\ stderr w' = stderr w ++ [diagnostic "a.go" "no space left on device"].
Proof.
  intros hst w w'. split; [vm_compute; reflexivity|].
  assert (L : load (tc := Ref.toolchain) hst "a.go" w
              = (inr (@Build_Loaded Ref.toolchain 420 aliased_src (parsed aliased_src)), w))
    by (vm_compute; reflexivity).
  assert (R : render (tc := Ref.toolchain) (replaceRules w) (parsed aliased_src)
              = inr aliased_src)
    by (vm_compute; reflexivity).
  assert (Tf : faults hst (SysTempFile (filepath_Dir ("a.go" +:+ "."))
                             (filepath_Base ("a.go" +:+ "."))) = Ok)
    by reflexivity.
  assert (T : backupName hst (fs w) "a.go" = Some "a.go.0")
    by (vm_compute; reflexivity).
  destruct (failed_backup_is_left_behind (tc := Ref.toolchain) hst "a.go" w w _
              aliased_src "a.go.0" L R Tf T) as (_ & A & _).
  apply (A "no space left on device").
  - intros _. reflexivity.
  - left. reflexivity.
Defined.

(** With the rule of the flags installed, the first run rewrites a.go and the
    second run changes nothing. *)
Lemma run_twice_is_run_once_witness :
  let w := with_rules (boot (disk "a.go" aliased_src)) {[ source flags := dest flags ]} in
  fs (snd (main (tc := Ref.toolchain) calm flags w)) !! "a.go"
  = Some {| Mode := 420; Data := aliased_dst |}
  /\ fs (snd (main (tc := Ref.toolchain) calm flags
                (snd (main (tc := Ref.toolchain) calm flags w))))
     = fs (snd (main (tc := Ref.toolchain) calm flags w)).
Proof.
  intros w. split; [vm_compute; reflexivity|].
  destruct (run_twice_is_run_once (tc := Ref.toolchain) calm flags w) as [A _];
    [| |exact A].
  - intros sc. reflexivity.
  - intros e node Hin V E.
    change (tree calm (dir flags)) with one_file in Hin.
    destruct Hin as [<-|[<-|[]]].
    + vm_compute in V. discriminate V.
    + vm_compute in E. injection E as <-.
      intros bs R. vm_compute in R. injection R as <-.
      vm_compute. reflexivity.
Defined.


(** * More of the program *)

(** ** What a run leaves alone *)

Section Frame.

Context {tc : GoToolchain} (h : Host).

Lemma Perm_Perm (m : Z) : Perm (Perm m) = Perm m.
Proof. unfold Perm. rewrite <- Z.land_assoc, Z.land_diag. reflexivity. Qed.

(** A run of [rewriteImport] changes the files only through [commit]. *)
Lemma rewriteImport_fs path w :
  fs (snd (rewriteImport h path w)) = fs w
  \/ exists l bs node,
       fs w !! path = Some node /\ src l = Data node
       /\ perm l = Perm (Mode node)
       /\ fs (snd (rewriteImport h path w))
          = fs (snd (commit h path (src l) bs (perm l) w)).
Proof.
  unfold rewriteImport, rewriteImport_errx, bind, try, pure, ret.
  destruct (load h path w) as [[e|l] w0] eqn:L.
  { apply load_world in L. subst w0. left. reflexivity. }
  destruct (load_inv h _ _ _ _ L) as (node & E & Hs & Hp & _).
  apply load_world in L. subst w0. simpl.
  destruct (render (replaceRules w) (file l)) as [e|bs]; [left; reflexivity|].
  right. exists l, bs, node. repeat split; try assumption.
  destruct (commit h path (src l) bs (perm l) w) as [[e|u] w1]; reflexivity.
Qed.

Lemma commit_other path data bs perm w p :
  p <> path -> is_Some (fs w !! p) ->
  fs (snd (commit h path data bs perm w)) !! p = fs w !! p.
Proof.
  intros Hp Hs. unfold commit, bind, ret.
  destruct (backupFile h (path +:+ ".") data perm w) as [[bn [e|]] w1] eqn:B.
  - apply backupFile_frame in B as (_ & _ & F). simpl. apply F, Hs.
  - apply backupFile_ok_inv in B as [Hfresh ->].
    assert (Hbn : bn <> p) by (intros ->; destruct Hs; congruence).
    unfold ioutil_WriteFile, os_Rename, os_Remove.
    repeat (case_inner; simpl);
      rewrite ?lookup_delete_ne, ?lookup_insert_ne by congruence;
      rewrite ?lookup_delete_ne, ?lookup_insert_ne by congruence;
      reflexivity.
Qed.

Lemma commit_target path data bs w node :
  fs w !! path = Some node ->
  exists node',
    fs (snd (commit h path data bs (Perm (Mode node)) w)) !! path = Some node'
    /\ (chmodSupported h = true -> Perm (Mode node') = Perm (Mode node)).
Proof.
  intros E. unfold commit, bind, ret.
  destruct (backupFile h (path +:+ ".") data (Perm (Mode node)) w)
    as [[bn [e|]] w1] eqn:B.
  - apply backupFile_frame in B as (_ & _ & F). simpl.
    exists node. rewrite F by (rewrite E; eauto). auto.
  - apply backupFile_ok_inv in B as [Hfresh ->].
    assert (Hne : bn <> path) by (intros ->; congruence).
    unfold ioutil_WriteFile, os_Rename, os_Remove. simpl.
    rewrite lookup_insert_ne, E by assumption.
    destruct (faults h (SysWriteFile path)) as [|e1|e1 n]; simpl.
    + rewrite lookup_insert_ne, lookup_insert_eq by congruence.
      destruct (failure (faults h (SysRemove bn))); simpl.
      * eexists. rewrite lookup_insert_eq. split; reflexivity.
      * eexists. rewrite lookup_delete_ne, lookup_insert_eq by congruence.
        split; reflexivity.
    + rewrite lookup_insert_eq.
      destruct (failure (faults h (SysRename bn path))); simpl.
      * exists node. rewrite lookup_insert_ne, E by assumption. auto.
      * eexists. rewrite lookup_insert_eq. split; [reflexivity|].
        intros C. simpl. unfold backupMode. rewrite C. apply Perm_Perm.
    + rewrite lookup_insert_ne, lookup_insert_eq by congruence.
      destruct (failure (faults h (SysRename bn path))); simpl.
      * eexists. rewrite lookup_insert_eq. split; reflexivity.
      * eexists. rewrite lookup_insert_eq. split; [reflexivity|].
        intros C. simpl. unfold backupMode. rewrite C. apply Perm_Perm.
Qed.

Lemma rewriteImport_other path w p :
  p <> path -> is_Some (fs w !! p) ->
  fs (snd (rewriteImport h path w)) !! p = fs w !! p.
Proof.
  intros Hp Hs.
  destruct (rewriteImport_fs path w) as [->|(l & bs & node & _ & _ & _ & ->)];
    [reflexivity|].
  apply commit_other; assumption.
Qed.

Lemma rewriteImport_keeps path w p node :
  chmodSupported h = true ->
  fs w !! p = Some node ->
  exists node', fs (snd (rewriteImport h path w)) !! p = Some node'
                /\ Perm (Mode node') = Perm (Mode node).
Proof.
  intros C E. destruct (decide (p = path)) as [->|Hne].
  - destruct (rewriteImport_fs path w)
      as [->|(l & bs & node0 & E0 & _ & Hperm & ->)]; [eauto|].
    rewrite E in E0. injection E0 as <-. rewrite Hperm.
    destruct (commit_target path (src l) bs w node E) as (node' & E' & P).
    exists node'. auto.
  - exists node. rewrite rewriteImport_other by (rewrite ?E; eauto). auto.
Qed.

Lemma handle_other e w p :
  is_Some (fs w !! p) ->
  (visited e = true -> wpath e <> p) ->
  fs (snd (handle h (wpath e) (winfo e) (werr e) w)) !! p = fs w !! p.
Proof.
  intros Hs Hv. unfold visited in Hv.
  destruct (werr e) as [err|]; [reflexivity|].
  rewrite handle_clean.
  destruct (selected (wpath e) (winfo e)); [|reflexivity].
  apply rewriteImport_other; [|exact Hs].
  intros ->. apply (Hv eq_refl). reflexivity.
Qed.

Lemma handle_keeps e w p node :
  chmodSupported h = true ->
  fs w !! p = Some node ->
  exists node', fs (snd (handle h (wpath e) (winfo e) (werr e) w)) !! p = Some node'
                /\ Perm (Mode node') = Perm (Mode node).
Proof.
  intros C E. destruct (werr e) as [err|]; [exists node; auto|].
  rewrite handle_clean.
  destruct (selected (wpath e) (winfo e)); [|exists node; auto].
  apply rewriteImport_keeps; assumption.
Qed.

Lemma Walk_other entries w p :
  is_Some (fs w !! p) ->
  (forall e, In e entries -> visited e = true -> wpath e <> p) ->
  fs (snd (Walk entries (handle h) w)) !! p = fs w !! p.
Proof.
  revert w. induction entries as [|e entries IH]; intros w Hs Hv; [reflexivity|].
  cbn [Walk]. unfold bind, ret.
  pose proof (handle_other e w p Hs (Hv e (or_introl eq_refl))) as H1.
  destruct (handle h (wpath e) (winfo e) (werr e) w) as [[err|] w1];
    simpl in H1; [exact H1|].
  rewrite IH; [exact H1|rewrite H1; exact Hs|].
  intros x Hx. apply Hv. right. exact Hx.
Qed.

Lemma Walk_keeps entries w p node :
  chmodSupported h = true ->
  fs w !! p = Some node ->
  exists node', fs (snd (Walk entries (handle h) w)) !! p = Some node'
                /\ Perm (Mode node') = Perm (Mode node).
Proof.
  intros C. revert w node. induction entries as [|e entries IH]; intros w node E.
  { exists node. auto. }
  cbn [Walk]. unfold bind, ret.
  destruct (handle_keeps e w p node C E) as (n1 & E1 & P1).
  destruct (handle h (wpath e) (winfo e) (werr e) w) as [[err|] w1];
    simpl in E1; [exists n1; auto|].
  destruct (IH w1 n1 E1) as (n2 & E2 & P2).
  exists n2. split; [exact E2|congruence].
Qed.

Lemma main_fs flags w :
  fs (snd (main h flags w)) = fs w
  \/ fs (snd (main h flags w)) = fs (snd (Walk (tree h (dir flags)) (handle h) w)).
Proof.
  unfold main, exitOnErr, bind, ret.
  destruct (String.eqb (dir flags) EmptyString); [left; reflexivity|].
  destruct (String.eqb (source flags) EmptyString || String.eqb (dest flags) EmptyString);
    [left; reflexivity|].
  right. destruct (Walk (tree h (dir flags)) (handle h) w) as [[err|] w1]; reflexivity.
Qed.

(** X1.  On a disk where every path is a file of its own, as the file map
    has it (no symbolic link and no second hard link among the paths),
    whatever calls fail, a run of [main] leaves every file alone that exists
    and is the path of no entry that [handle] selects: it keeps its mode and
    its bytes, also while other files are backed up, overwritten or
    restored.  (Through a link whose own path is selected the program writes
    to the file the link points to; such disks are outside the file map.) *)
Theorem main_leaves_unselected_files (flags : Flags) (w : World) (p : string) :
  is_Some (fs w !! p) ->
  (forall e, In e (tree h (dir flags)) -> visited e = true -> wpath e <> p) ->
  fs (snd (main h flags w)) !! p = fs w !! p.
Proof.
  intros Hs Hv. destruct (main_fs flags w) as [->| ->]; [reflexivity|].
  apply Walk_other; assumption.
Qed.

(** X2.  Where [chmodSupported], a run of [main] removes no file that was
    there before and changes the permission bits of none, whatever calls
    fail and whatever happens to the content. *)
Theorem main_keeps_files_and_permissions
    (flags : Flags) (w : World) (p : string) (node : FileNode) :
  chmodSupported h = true ->
  fs w !! p = Some node ->
  exists node', fs (snd (main h flags w)) !! p = Some node'
                /\ Perm (Mode node') = Perm (Mode node).
Proof.
  intros C E. destruct (main_fs flags w) as [->| ->]; [exists node; auto|].
  apply Walk_keeps; assumption.
Qed.

End Frame.

(** ** The transaction around one file *)

Section Transaction.

Context {tc : GoToolchain} (h : Host).

(** X3.  On a host where no call fails, for a file that parses and renders
    to bs while a backup name is free, [rewriteImport] returns nil, logs
    nothing, and leaves exactly one change: the file holds bs under its old
    mode.  The backup name was free before and is free again. *)
Theorem rewrite_succeeds
    (path : string) (w : World) (node : FileNode) (f : File) (bs backname : string) :
  quiet h ->
  fs w !! path = Some node ->
  ParseFile (Data node) = inr f ->
  render (replaceRules w) f = inr bs ->
  backupName h (fs w) path = Some backname ->
  rewriteImport h path w
  = (None, with_fs w (<[path := {| Mode := Mode node; Data := bs |}]> (fs w)))
  /\ fs w !! backname = None
  /\ fs (snd (rewriteImport h path w)) !! backname = None.
Proof.
  intros Q E P R T.
  assert (Hfresh : fs w !! backname = None) by exact (tempName_fresh h _ _ _ _ _ _ T).
  rewrite (rewriteImport_quiet h _ _ _ _ _ _ Q E P R T).
  repeat split; [exact Hfresh|]. simpl.
  rewrite lookup_insert_ne; [exact Hfresh|]. intros ->. congruence.
Qed.

(** X4.  When the overwrite succeeds and the removal of the backup fails,
    the target holds the new text under its old mode, the backup stays on
    disk with the original bytes, and the failure is logged. *)
Theorem failed_cleanup_keeps_new_text
    (path : string) (w w0 w1 : World) (l : Loaded) (node : FileNode)
    (bs backname : string) (e : error) :
  fs w !! path = Some node ->
  load h path w = (inr l, w0) ->
  render (replaceRules w) (file l) = inr bs ->
  backupFile h (path +:+ ".") (src l) (perm l) w = ((backname, None), w1) ->
  faults h (SysWriteFile path) = Ok ->
  failure (faults h (SysRemove backname)) = Some e ->
  let w' := snd (rewriteImport h path w) in
  fs w' !! path = Some {| Mode := Mode node; Data := bs |}
  /\ fs w' !! backname
     = Some {| Mode := backupMode h (Perm (Mode node)); Data := Data node |}
  /\ stderr w' = stderr w ++ [diagnostic path e].
Proof.
  intros E L R B Wf Rm w'. subst w'.
  destruct (load_inv h _ _ _ _ L) as (node0 & E0 & Hs & Hp & _).
  rewrite E in E0. injection E0 as <-.
  assert (w0 = w) as -> by exact (load_world h _ _ _ _ L).
  unfold rewriteImport, rewriteImport_errx, bind, try, pure, ret.
  rewrite L. simpl. rewrite R. unfold commit, bind, ret. rewrite B.
  apply backupFile_ok_inv in B as [Hfresh ->].
  assert (Hne : backname <> path) by (intros ->; congruence).
  unfold ioutil_WriteFile, os_Remove. simpl.
  rewrite Wf, lookup_insert_ne, E by assumption. simpl. rewrite Rm. simpl.
  rewrite lookup_insert_eq, lookup_insert_ne, lookup_insert_eq by congruence.
  rewrite Hs, Hp. auto.
Qed.

(** X5.  A run that fails before the backup, because the file cannot be
    opened, examined, read or parsed, or because substituting, printing or
    formatting fails, logs that error and changes no file. *)
Theorem early_failure_touches_nothing
    (path : string) (w w0 : World) (e : error) :
  load h path w = (inl e, w0)
  \/ (exists l, load h path w = (inr l, w0)
                /\ render (replaceRules w) (file l) = inl e) ->
  rewriteImport h path w = (None, log_line (diagnostic path e) w).
Proof.
  intros [L|(l & L & R)].
  - assert (w0 = w) as -> by exact (load_world h _ _ _ _ L).
    unfold rewriteImport, rewriteImport_errx, bind, try, pure, ret.
    rewrite L. reflexivity.
  - exact (rewriteImport_render_error h _ _ _ _ _ L R).
Qed.


(** X7.  However [backupFile] ends, it changes no file that existed before
    and logs nothing.  When the temp file cannot be created, by a failing
    call or because none of the proposed names is free, it returns the empty
    name with the error and the world as it was. *)
Theorem backup_never_touches_existing_files
    (filename data : string) (perm : Z) (w : World) :
  (forall p, is_Some (fs w !! p) ->
             fs (snd (backupFile h filename data perm w)) !! p = fs w !! p)
  /\ stderr (snd (backupFile h filename data perm w)) = stderr w
  /\ (forall e,
        failure (faults h (SysTempFile (filepath_Dir filename) (filepath_Base filename)))
        = Some e ->
        backupFile h filename data perm w = ((EmptyString, Some e), w))
  /\ (faults h (SysTempFile (filepath_Dir filename) (filepath_Base filename)) = Ok ->
      tempName h (fs w) (filepath_Dir filename) (filepath_Base filename) 0 tempAttempts
      = None ->
      backupFile h filename data perm w = ((EmptyString, Some "file exists"), w)).
Proof.
  destruct (backupFile h filename data perm w) as [res w1] eqn:B.
  pose proof (backupFile_frame h _ _ _ _ _ _ B) as (S & _ & F).
  split; [exact F|]. split; [exact S|].
  rewrite <- B. unfold backupFile, bind, ret, ioutil_TempFile. split.
  - intros e Hf. rewrite Hf. reflexivity.
  - intros Hf T. rewrite Hf. cbn [failure]. rewrite T. reflexivity.
Qed.

End Transaction.

(** ** The rule matcher with any rule map *)

Section Matching.

Context {tc : GoToolchain}.

Lemma matchRules_in (rules : list (string * string)) (imp : ImportSpec) (r : replacer) :
  In r (matchRules rules imp)
  <-> exists pre will,
        In (pre, will) rules
        /\ strings.HasPrefix (importPath imp) pre = true
        /\ r = {| name := importName imp;
                  oldPath := importPath imp;
                  newPath := will +:+ strings.TrimPrefix (importPath imp) pre |}.
Proof.
  unfold matchRules. rewrite in_flat_map. split.
  - intros ([pre will] & Hin & H).
    destruct (strings.HasPrefix (importPath imp) pre) eqn:P; [|destruct H].
    destruct H as [<-|[]]. exists pre, will. auto.
  - intros (pre & will & Hin & P & ->). exists (pre, will).
    split; [exact Hin|]. rewrite P. left. reflexivity.
Qed.

Lemma collectReplacers_in (rules : gmap string string)
    (groups : list (list ImportSpec)) (r : replacer) :
  In r (collectReplacers rules groups)
  <-> exists imp pre will,
        In imp (concat groups)
        /\ rules !! pre = Some will
        /\ strings.HasPrefix (importPath imp) pre = true
        /\ r = {| name := importName imp;
                  oldPath := importPath imp;
                  newPath := will +:+ strings.TrimPrefix (importPath imp) pre |}.
Proof.
  unfold collectReplacers. rewrite in_flat_map. split.
  - intros (g & Hg & H). apply in_flat_map in H as (imp & Hi & H).
    apply matchRules_in in H as (pre & will & Hin & P & ->).
    exists imp, pre, will. repeat split; try assumption.
    + apply in_concat. exists g. split; assumption.
    + apply elem_of_map_to_list, list_elem_of_In, Hin.
  - intros (imp & pre & will & Hi & Hl & P & ->).
    apply in_concat in Hi as (g & Hg & Hi). exists g. split; [exact Hg|].
    apply in_flat_map. exists imp. split; [exact Hi|].
    apply matchRules_in. exists pre, will. repeat split; [|exact P].
    apply list_elem_of_In, elem_of_map_to_list, Hl.
Qed.

Lemma flat_map_concat {A B} (f : A -> list B) (ls : list (list A)) :
  flat_map (flat_map f) ls = flat_map f (concat ls).
Proof.
  induction ls as [|l ls IH]; [reflexivity|].
  cbn [flat_map concat]. rewrite flat_map_app, IH. reflexivity.
Qed.



(** X9.  [initReplaceRules] replaces whatever rules there were by the single
    rule of the flags and touches nothing else; with it the pending
    substitutions are, in source order and one for each occurrence, the
    imports whose path starts with the source prefix, each to be replaced by
    the destination prefix followed by the rest of its path. *)
Theorem initReplaceRules_then_match (flags : Flags) (w : World)
    (groups : list (list ImportSpec)) :
  let w' := snd (initReplaceRules flags w) in
  fs w' = fs w
  /\ stderr w' = stderr w
  /\ replaceRules w' !! source flags = Some (dest flags)
  /\ (forall pre, pre <> source flags -> replaceRules w' !! pre = None)
  /\ collectReplacers (replaceRules w') groups
     = flat_map
         (fun imp =>
            if strings.HasPrefix (importPath imp) (source flags)
            then [ {| name := importName imp;
                      oldPath := importPath imp;
                      newPath := dest flags
                                 +:+ strings.TrimPrefix (importPath imp) (source flags) |} ]
            else [])
         (concat groups).
Proof.
  simpl. split; [reflexivity|]. split; [reflexivity|].
  split; [apply lookup_singleton_eq|].
  split; [intros pre Hne; apply lookup_singleton_ne; congruence|].
  unfold collectReplacers. rewrite map_to_list_singleton, flat_map_concat.
  apply flat_map_ext. intros imp. apply matchRules_single.
Qed.

(** X10.  An import whose path literal cannot be unquoted has the empty
    logical path and is matched by no rule with a non-empty prefix. *)
Theorem unquotable_import_is_never_matched (rules : gmap string string)
    (imp : ImportSpec) (e : error) :
  Unquote (PathValue imp) = inl e ->
  rules !! EmptyString = None ->
  importPath imp = EmptyString /\ collectReplacers rules [[imp]] = [].
Proof.
  intros U N.
  assert (P : importPath imp = EmptyString) by (unfold importPath; rewrite U; reflexivity).
  split; [exact P|].
  destruct (collectReplacers rules [[imp]]) as [|r rs] eqn:C; [reflexivity|].
  exfalso.
  assert (Hin : In r (collectReplacers rules [[imp]])) by (rewrite C; left; reflexivity).
  apply collectReplacers_in in Hin as (i & pre & will & Hi & Hl & Hp & _).
  simpl in Hi. destruct Hi as [<-|[]]. rewrite P in Hp.
  destruct pre; [congruence|discriminate].
Qed.

End Matching.

(** ** The files after a whole run *)

Section WholeRun.

Context {tc : GoToolchain} (h : Host).

(** X11.  On a host where no call fails and with the three flags set, the
    files [main] leaves are those obtained by going through the entries of
    the walk in order, up to the first one the traversal reports with an
    error, and replacing the text of every selected file that exists, parses,
    renders and finds a free backup name by its rendered text; modes and
    all other files stay, and the rule map is the one the run started with. *)
Theorem main_on_quiet_host (flags : Flags) (w : World) :
  quiet h ->
  dir flags <> EmptyString ->
  source flags <> EmptyString ->
  dest flags <> EmptyString ->
  fs (snd (main h flags w))
  = settle_all h (replaceRules w) (walked (tree h (dir flags))) (fs w)
  /\ replaceRules (snd (main h flags w)) = replaceRules w.
Proof.
  intros Q Hd Hs Hr. split; [|apply main_rules].
  rewrite (main_valid h _ _ Hd Hs Hr). unfold bind, ret, exitOnErr.
  pose proof (Walk_walked h (tree h (dir flags)) w) as W.
  destruct (Walk (tree h (dir flags)) (handle h) w) as [[err|] w1];
    simpl in *; subst w1; apply handle_all_quiet_fs, Q.
Qed.

End WholeRun.

(** ** What can happen to the content of the target *)

Section Content.

Context {tc : GoToolchain} (h : Host).

Lemma backupFile_ok_name path data perm w backname w1 :
  backupFile h (path +:+ ".") data perm w = ((backname, None), w1) ->
  backupName h (fs w) path = Some backname.
Proof.
  unfold backupFile, backupName, bind, ret, ioutil_TempFile.
  destruct (failure (faults h (SysTempFile _ _))); [discriminate|].
  destruct (tempName h (fs w) _ _ 0 tempAttempts) as [nm|]; [|discriminate].
  unfold File_Chmod, File_Write, File_Close, os_Remove.
  destruct (chmodSupported h); simpl;
    repeat (case_inner; simpl); intros [= <- _]; reflexivity.
Qed.

(** X12.  Whatever calls fail, after a run of [rewriteImport] the target is
    still there and holds one of three things: the bytes it had; the whole
    rendered text, when the overwrite succeeded; or the first bytes of the
    rendered text, which happens only when the overwrite failed part way and
    the rename of the backup onto the target failed as well. *)
Theorem target_content_after_run (path : string) (w : World) (node : FileNode) :
  fs w !! path = Some node ->
  exists node',
    fs (snd (rewriteImport h path w)) !! path = Some node'
    /\ (Data node' = Data node
        \/ (exists bs,
              rewritten (replaceRules w) (Data node) = inr bs
              /\ faults h (SysWriteFile path) = Ok
              /\ Data node' = bs)
        \/ (exists bs e n backname,
              rewritten (replaceRules w) (Data node) = inr bs
              /\ faults h (SysWriteFile path) = FailAfter e n
              /\ backupName h (fs w) path = Some backname
              /\ failure (faults h (SysRename backname path)) <> None
              /\ Data node' = strings.slice_to n bs)).
Proof.
  intros E.
  unfold rewriteImport, rewriteImport_errx, bind, try, pure, ret.
  destruct (load h path w) as [[e|l] w0] eqn:L.
  { apply load_world in L. subst w0. exists node. simpl. auto. }
  destruct (load_inv h _ _ _ _ L) as (node0 & E0 & Hs & Hp & P).
  rewrite E in E0. injection E0 as <-.
  apply load_world in L. subst w0. simpl.
  destruct (render (replaceRules w) (file l)) as [e|bs] eqn:R.
  { exists node. simpl. auto. }
  assert (RW : rewritten (replaceRules w) (Data node) = inr bs).
  { unfold rewritten. rewrite P. exact R. }
  assert (F : forall r w1, commit h path (src l) bs (perm l) w = (r, w1) ->
              exists node', fs w1 !! path = Some node'
                /\ (Data node' = Data node
                    \/ (faults h (SysWriteFile path) = Ok /\ Data node' = bs)
                    \/ (exists e n backname,
                          faults h (SysWriteFile path) = FailAfter e n
                          /\ backupName h (fs w) path = Some backname
                          /\ failure (faults h (SysRename backname path)) <> None
                          /\ Data node' = strings.slice_to n bs))).
  { intros r w1. unfold commit, bind, ret.
    destruct (backupFile h (path +:+ ".") (src l) (perm l) w) as [[bn [e|]] w2] eqn:B.
    - apply backupFile_frame in B as (_ & _ & Fr).
      intros [= _ <-]. exists node. rewrite Fr by (rewrite E; eauto). auto.
    - pose proof (backupFile_ok_name _ _ _ _ _ _ B) as T.
      apply backupFile_ok_inv in B as [Hfresh ->].
      assert (Hne : bn <> path) by (intros ->; congruence).
      unfold ioutil_WriteFile, os_Rename, os_Remove. simpl.
      rewrite lookup_insert_ne, E by assumption.
      destruct (faults h (SysWriteFile path)) as [|e1|e1 n] eqn:Wf; simpl.
      + rewrite lookup_insert_ne, lookup_insert_eq by congruence.
        destruct (failure (faults h (SysRemove bn))); simpl; intros [= _ <-]; simpl.
        * eexists. rewrite lookup_insert_eq. split; [reflexivity|]. simpl. auto.
        * eexists. rewrite lookup_delete_ne, lookup_insert_eq by congruence.
          split; [reflexivity|]. simpl. auto.
      + rewrite lookup_insert_eq.
        destruct (failure (faults h (SysRename bn path))); simpl;
          intros [= _ <-]; simpl.
        * exists node. rewrite lookup_insert_ne, E by assumption. auto.
        * eexists. rewrite lookup_insert_eq. split; [reflexivity|]. simpl. auto.
      + rewrite lookup_insert_ne, lookup_insert_eq by congruence.
        destruct (failure (faults h (SysRename bn path))) eqn:Rn; simpl;
          intros [= _ <-]; simpl.
        * eexists. rewrite lookup_insert_eq. split; [reflexivity|]. simpl.
          right. right. exists e1, n, bn. rewrite Rn.
          repeat split; try assumption; try reflexivity. discriminate.
        * eexists. rewrite lookup_insert_eq. split; [reflexivity|]. simpl. auto. }
  destruct (commit h path (src l) bs (perm l) w) as [r w1] eqn:C.
  destruct (F r w1 eq_refl) as (node' & E' & D).
  exists node'. split.
  - destruct r; simpl; exact E'.
  - destruct D as [D|[(Wf & D)|(e & n & bn & Wf & T & Rn & D)]].
    + auto.
    + right. left. exists bs. auto.
    + right. right. exists bs, e, n, bn. auto.
Qed.

End Content.

(** ** These properties at work *)

(** Every write to a.go fails and the restoring rename fails too, and still
    the vendored file, which [handle] never selects, is as it was. *)
Lemma main_leaves_unselected_files_witness :
  let hst := host write_and_rename_fail Cases.mixed_walk in
  let w := boot Cases.mixed_disk in
  fs (snd (main (tc := Ref.toolchain) hst flags w)) !! "vendor/x.go"
  = fs w !! "vendor/x.go".
Proof.
  intros hst w.
  apply (main_leaves_unselected_files (tc := Ref.toolchain) hst flags w "vendor/x.go").
  - exists {| Mode := 292; Data := loose_src |}. vm_compute. reflexivity.
  - intros e Hin V. change (tree hst (dir flags)) with Cases.mixed_walk in Hin.
    destruct Hin as [<-|[<-|[<-|[<-|[<-|[]]]]]];
      try (vm_compute in V; discriminate V);
      intros D; vm_compute in D; discriminate D.
Defined.

(** The overwrite of a.go fails after truncating it and the rename fails:
    a.go is still there, with mode 0644. *)
Lemma main_keeps_files_and_permissions_witness :
  let hst := host write_and_rename_fail one_file in
  let w := boot (disk "a.go" aliased_src) in
  exists node', fs (snd (main (tc := Ref.toolchain) hst flags w)) !! "a.go" = Some node'
                /\ Perm (Mode node') = Perm 420.
Proof.
  intros hst w.
  apply (main_keeps_files_and_permissions (tc := Ref.toolchain) hst flags w "a.go"
           {| Mode := 420; Data := aliased_src |}).
  - reflexivity.
  - vm_compute. reflexivity.
Defined.

(** With the rule of the flags installed, a.go is rewritten to the import of
    example.com/baz/sub and the backup a.go.0 is gone. *)
Lemma rewrite_succeeds_witness :
  let w := with_rules (boot (disk "a.go" aliased_src)) {[ source flags := dest flags ]} in
  rewriteImport (tc := Ref.toolchain) calm "a.go" w
  = (None, with_fs w (<["a.go" := {| Mode := 420; Data := aliased_dst |}]> (fs w)))
  /\ fs w !! "a.go.0" = None
  /\ fs (snd (rewriteImport (tc := Ref.toolchain) calm "a.go" w)) !! "a.go.0" = None.
Proof.
  intros w.
  apply (rewrite_succeeds (tc := Ref.toolchain) calm "a.go" w
           {| Mode := 420; Data := aliased_src |} (parsed aliased_src)
           aliased_dst "a.go.0").
  - intros sc. reflexivity.
  - vm_compute. reflexivity.
  - vm_compute. reflexivity.
  - vm_compute. reflexivity.
  - vm_compute. reflexivity.
Defined.

(** The backup a.go.0 cannot be removed: a.go holds the new text, a.go.0 the
    old one. *)
Lemma failed_cleanup_keeps_new_text_witness :
  let hst := host Cases.remove_fails one_file in
  let w := with_rules (boot (disk "a.go" aliased_src)) {[ source flags := dest flags ]} in
  let w' := snd (rewriteImport (tc := Ref.toolchain) hst "a.go" w) in
  fs w' !! "a.go" = Some {| Mode := 420; Data := aliased_dst |}
  /\ fs w' !! "a.go.0" = Some {| Mode := 420; Data := aliased_src |}
  /\ stderr w' = [diagnostic "a.go" "permission denied"].
Proof.
  intros hst w.
  apply (failed_cleanup_keeps_new_text (tc := Ref.toolchain) hst "a.go" w w
           (with_fs w (<["a.go.0" := {| Mode := 420; Data := aliased_src |}]> (fs w)))
           (@Build_Loaded Ref.toolchain 420 aliased_src (parsed aliased_src))
           {| Mode := 420; Data := aliased_src |} aliased_dst "a.go.0"
           "permission denied").
  - vm_compute. reflexivity.
  - vm_compute. reflexivity.
  - vm_compute. reflexivity.
  - vm_compute. reflexivity.
  - vm_compute. reflexivity.
  - vm_compute. reflexivity.
Defined.

(** a.go has no package clause: the parse error is logged and the file map
    is as it was. *)
Lemma early_failure_touches_nothing_witness :
  let w := boot (disk "a.go" Cases.broken_src) in
  rewriteImport (tc := Ref.toolchain) calm "a.go" w
  = (None, log_line (diagnostic "a.go" "expected 'package'") w).
Proof.
  intros w.
  apply (early_failure_touches_nothing (tc := Ref.toolchain) calm "a.go" w w).
  left. vm_compute. reflexivity.
Defined.


(** No temp file can be created: [backupFile] hands back the empty name,
    and [rewriteImport] leaves a.go alone. *)
Lemma backup_never_touches_existing_files_witness :
  let hst := host Cases.tempfile_fails one_file in
  let w := boot (disk "a.go" aliased_src) in
  backupFile hst "a.go." aliased_src 420 w
  = ((EmptyString, Some "read-only file system"), w)
  /\ fs (snd (rewriteImport (tc := Ref.toolchain) hst "a.go" w)) = fs w.
Proof.
  intros hst w. split; [|vm_compute; reflexivity].
  destruct (backup_never_touches_existing_files hst "a.go." aliased_src 420 w)
    as (_ & _ & A & _).
  apply A. reflexivity.
Defined.

(** A path literal without quotes yields no pending substitution. *)
Lemma unquotable_import_is_never_matched_witness :
  let imp := {| Name := None; PathValue := "github.com/foo/bar" |} in
  importPath (tc := Ref.toolchain) imp = EmptyString
  /\ collectReplacers (tc := Ref.toolchain) {[ source flags := dest flags ]} [[imp]] = [].
Proof.
  intros imp.
  apply (unquotable_import_is_never_matched (tc := Ref.toolchain)
           {[ source flags := dest flags ]} imp "invalid syntax").
  - vm_compute. reflexivity.
  - vm_compute. reflexivity.
Defined.

(** With the rule of the flags installed and no failing call, the files
    after the run are those of the fold; a.go holds its formatted text. *)
Lemma main_on_quiet_host_witness :
  let hst := host (fun _ => Ok) Cases.mixed_walk in
  let w := with_rules (boot Cases.mixed_disk) {[ source flags := dest flags ]} in
  fs (snd (main (tc := Ref.toolchain) hst flags w)) !! "a.go"
  = Some {| Mode := 420; Data := loose_fmt |}
  /\ fs (snd (main (tc := Ref.toolchain) hst flags w))
     = settle_all (tc := Ref.toolchain) hst (replaceRules w)
         (walked (tree hst (dir flags))) (fs w)
  /\ replaceRules (snd (main (tc := Ref.toolchain) hst flags w)) = replaceRules w.
Proof.
  intros hst w. split; [vm_compute; reflexivity|].
  apply (main_on_quiet_host (tc := Ref.toolchain) hst flags w).
  - intros sc. reflexivity.
  - discriminate.
  - discriminate.
  - discriminate.
Defined.

(** a.go is truncated by the failing overwrite and not restored: it holds the
    first zero bytes of the new text, the third of the three cases. *)
Lemma target_content_after_run_witness :
  let hst := host write_and_rename_fail one_file in
  let w := boot (disk "a.go" aliased_src) in
  fs (snd (rewriteImport (tc := Ref.toolchain) hst "a.go" w)) !! "a.go"
  = Some {| Mode := 420; Data := EmptyString |}
  /\ exists node',
       fs (snd (rewriteImport (tc := Ref.toolchain) hst "a.go" w)) !! "a.go" = Some node'
       /\ (Data node' = aliased_src
           \/ (exists bs,
                 rewritten (tc := Ref.toolchain) (replaceRules w) aliased_src = inr bs
                 /\ faults hst (SysWriteFile "a.go") = Ok
                 /\ Data node' = bs)
           \/ (exists bs e n backname,
                 rewritten (tc := Ref.toolchain) (replaceRules w) aliased_src = inr bs
                 /\ faults hst (SysWriteFile "a.go") = FailAfter e n
                 /\ backupName hst (fs w) "a.go" = Some backname
                 /\ failure (faults hst (SysRename backname "a.go")) <> None
                 /\ Data node' = strings.slice_to n bs)).
Proof.
  intros hst w. split; [vm_compute; reflexivity|].
  apply (target_content_after_run (tc := Ref.toolchain) hst "a.go" w
           {| Mode := 420; Data := aliased_src |}).
  vm_compute. reflexivity.
Defined.

(** The prefix is matched as text: with the rule of the flags the import of
    github.com/foo/barbaz/sub as x is to become example.com/bazbaz/sub as x,
    and the import of fmt is left out. *)
Lemma initReplaceRules_then_match_witness :
  collectReplacers (tc := Ref.toolchain)
    (replaceRules (snd (initReplaceRules flags (boot ∅)))) Cases.two_groups
  = [ {| name := "x";
         oldPath := "github.com/foo/barbaz/sub";
         newPath := "example.com/bazbaz/sub" |} ].
Proof.
  destruct (initReplaceRules_then_match (tc := Ref.toolchain) flags (boot ∅)
              Cases.two_groups) as (_ & _ & _ & _ & A).
  rewrite A. vm_compute. reflexivity.
Defined.

